(** * check_ip_alive.py: address expansion, parallel scan, result table and
      round robin monitor, embedded in Rocq.

    Source: [src/scan-ip/check_ip_alive.py].  The functions of the script are
    translated one by one; the parts of the Python standard library they
    call ([str] methods, the [ipaddress] module of CPython 3.11, [signal])
    are translated from the library source as far as the script uses them.

    Conventions of the embedding:
    - a Python [str] is a Rocq [string], one [ascii] per code point (so the
      code points below 256 are covered);
    - a Python [int] is a [Z]; an [IPv4Address] object is its [_ip] field;
    - a call that may raise returns an [outcome]: [Returns v] or [Raises e];
    - console output is a list of structured [line]s, oldest first; the
      layout of a line (padding, colours, [:.1f]) is left to the renderer;
    - a Python [float] quotient is the exact rational in [Q];
    - the external ping process and the clock are oracles. *)

From Stdlib Require Import ZArith QArith Lia Ascii String DecimalString.
From stdpp Require Import base option list gmap strings sorting.
From Equations Require Import Equations.
From Equations.Prop Require Import Logic.

Local Open Scope string_scope.
Local Open Scope Z_scope.

(** ** Exceptions and outcomes *)

Inductive exn : Set :=
| AddressValueError
| NetmaskValueError
| ValueError
| ZeroDivisionError
| KeyboardInterrupt
| SystemExit (code : Z).

(** [except ValueError]: the two [ipaddress] errors derive from it. *)
Definition is_ValueError (e : exn) : bool :=
  match e with
  | AddressValueError | NetmaskValueError | ValueError => true
  | _ => false
  end.

(** [except Exception]: [KeyboardInterrupt] and [SystemExit] derive from
    [BaseException] only. *)
Definition is_Exception (e : exn) : bool :=
  match e with
  | KeyboardInterrupt | SystemExit _ => false
  | _ => true
  end.

Inductive outcome (A : Type) : Type :=
| Returns (a : A)
| Raises (e : exn).
Arguments Returns {A} a.
Arguments Raises {A} e.

#[global] Instance outcome_ret : MRet outcome := fun A a => Returns a.
#[global] Instance outcome_fmap : FMap outcome := fun A B f c =>
  match c with
  | Returns a => Returns (f a)
  | Raises e => Raises e
  end.
#[global] Instance outcome_bind : MBind outcome := fun A B f c =>
  match c with
  | Returns a => f a
  | Raises e => Raises e
  end.

(** [try: c  except <cls>: h] *)
Definition try_except {A} (c : outcome A) (cls : exn -> bool)
    (h : exn -> outcome A) : outcome A :=
  match c with
  | Returns a => Returns a
  | Raises e => if cls e then h e else Raises e
  end.

(** Whether a call returned. *)
Definition is_Returns {A} (c : outcome A) : bool :=
  match c with Returns _ => true | Raises _ => false end.

(** ** Python [str] operations used by the script and by [ipaddress] *)

Module PyStr.

Definition code (c : ascii) : Z := Z.of_N (N_of_ascii c).

(** [len(s)] *)
Definition len (s : string) : Z := Z.of_nat (String.length s).

(** [c in s] for a one-character [c] *)
Fixpoint contains (c : ascii) (s : string) : bool :=
  match s with
  | EmptyString => false
  | String a s' => if Ascii.eqb a c then true else contains c s'
  end.

(** [s.split(sep)] for a one-character separator *)
Fixpoint split (sep : ascii) (s : string) : list string :=
  match s with
  | EmptyString => [EmptyString]
  | String a s' =>
      if Ascii.eqb a sep then EmptyString :: split sep s'
      else match split sep s' with
           | [] => [String a EmptyString]
           | w :: ws => String a w :: ws
           end
  end.

(** [s.split(sep, 1)]: at most one cut, at the first separator *)
Fixpoint split1 (sep : ascii) (s : string) : list string :=
  match s with
  | EmptyString => [EmptyString]
  | String a s' =>
      if Ascii.eqb a sep then [EmptyString; s']
      else match split1 sep s' with
           | [] => [String a EmptyString]
           | w :: ws => String a w :: ws
           end
  end.

(** [sep.join(parts)] *)
Fixpoint join (sep : string) (parts : list string) : string :=
  match parts with
  | [] => EmptyString
  | [p] => p
  | p :: ps => p +:+ sep +:+ join sep ps
  end.

(** [str.isspace] on one code point below 256 *)
Definition isspace_char (c : ascii) : bool :=
  let n := code c in
  ((9 <=? n) && (n <=? 13)) || ((28 <=? n) && (n <=? 32))
  || (n =? 133) || (n =? 160).

Fixpoint lstrip (s : string) : string :=
  match s with
  | EmptyString => EmptyString
  | String a s' => if isspace_char a then lstrip s' else s
  end.

Fixpoint rstrip (s : string) : string :=
  match s with
  | EmptyString => EmptyString
  | String a s' =>
      match rstrip s' with
      | EmptyString => if isspace_char a then EmptyString
                       else String a EmptyString
      | r => String a r
      end
  end.

(** [s.strip()] *)
Definition strip (s : string) : string := rstrip (lstrip s).

Fixpoint forall_chars (p : ascii -> bool) (s : string) : bool :=
  match s with
  | EmptyString => true
  | String a s' => p a && forall_chars p s'
  end.

(** [s.isascii()] *)
Definition isascii (s : string) : bool :=
  forall_chars (fun c => code c <? 128) s.

(** [str.isdigit] on one code point below 256: the ASCII digits and the
    superscripts U+00B2, U+00B3, U+00B9. *)
Definition isdigit_char (c : ascii) : bool :=
  let n := code c in
  ((48 <=? n) && (n <=? 57)) || (n =? 178) || (n =? 179) || (n =? 185).

(** [s.isdigit()]: false on the empty string *)
Definition isdigit (s : string) : bool :=
  match s with
  | EmptyString => false
  | _ => forall_chars isdigit_char s
  end.

(** Value of a string of ASCII digits, most significant first. *)
Fixpoint digits_value (acc : Z) (s : string) : Z :=
  match s with
  | EmptyString => acc
  | String a s' => digits_value (acc * 10 + (code a - 48)) s'
  end.

(** [sys.get_int_max_str_digits()], CPython's default. *)
Definition int_max_str_digits : Z := 4300.

(** [int(s)] / [int(s, 10)] on a string already known to satisfy
    [isascii() and isdigit()]; the conversion refuses more digits than
    [int_max_str_digits]. *)
Definition int_of_digits (s : string) : outcome Z :=
  if int_max_str_digits <? len s then Raises ValueError
  else Returns (digits_value 0 s).

(** [str(n)] for an [int] *)
Definition str_of_int (n : Z) : string :=
  NilEmpty.string_of_int (Z.to_int n).

End PyStr.

(** ** The part of CPython 3.11's [ipaddress] the script calls *)

Module ipaddress.
Import PyStr.

Definition IPV4LENGTH : Z := 32.
Definition _ALL_ONES : Z := 2 ^ IPV4LENGTH - 1.
Definition _max_prefixlen : Z := IPV4LENGTH.

(** [_BaseV4._parse_octet] *)
Definition _parse_octet (octet_str : string) : outcome Z :=
  if String.eqb octet_str "" then Raises ValueError
  else if negb (isascii octet_str && isdigit octet_str) then Raises ValueError
  else if 3 <? len octet_str then Raises ValueError
  else if negb (String.eqb octet_str "0")
          && (match octet_str with
              | String a _ => Ascii.eqb a "0"
              | EmptyString => false
              end)
  then Raises ValueError
  else
    octet_int ← int_of_digits octet_str;
    if 255 <? octet_int then Raises ValueError else Returns octet_int.

(** [int.from_bytes(bs, 'big')] *)
Definition from_bytes_big (bs : list Z) : Z :=
  fold_left (fun acc b => acc * 256 + b) bs 0.

(** [n.to_bytes(4, 'big')] *)
Definition to_bytes4_big (n : Z) : list Z :=
  [Z.land (Z.shiftr n 24) 255; Z.land (Z.shiftr n 16) 255;
   Z.land (Z.shiftr n 8) 255; Z.land n 255].

(** [_BaseV4._ip_int_from_string] *)
Definition _ip_int_from_string (ip_str : string) : outcome Z :=
  if String.eqb ip_str "" then Raises AddressValueError
  else
    let octets := split "." ip_str in
    if negb (Z.of_nat (length octets) =? 4) then Raises AddressValueError
    else
      try_except (from_bytes_big <$> mapM _parse_octet octets)
                 is_ValueError (fun _ => Raises AddressValueError).

(** [_BaseV4._string_from_ip_int], which is [str(IPv4Address)] *)
Definition _string_from_ip_int (ip_int : Z) : string :=
  join "." (map str_of_int (to_bytes4_big ip_int)).

(** [_IPAddressBase._check_int_address] *)
Definition _check_int_address (address : Z) : outcome unit :=
  if address <? 0 then Raises AddressValueError
  else if _ALL_ONES <? address then Raises AddressValueError
  else Returns tt.

(** [IPv4Address(address)] for an [int] argument *)
Definition IPv4Address_of_int (address : Z) : outcome Z :=
  _ ← _check_int_address address; Returns address.

(** [IPv4Address(address)] for a [str] argument *)
Definition IPv4Address (address : string) : outcome Z :=
  if contains "/" address then Raises AddressValueError
  else _ip_int_from_string address.

(** [_BaseAddress.__add__] with an [int] *)
Definition IPv4Address_add (self other : Z) : outcome Z :=
  IPv4Address_of_int (self + other).

(** [_split_optional_netmask] *)
Definition _split_optional_netmask (address : string) : outcome (list string) :=
  let addr := split "/" address in
  if 2 <? Z.of_nat (length addr) then Raises AddressValueError
  else Returns addr.

(** The mask argument handed to [_make_netmask]: the text after the
    slash, or the integer [_max_prefixlen] when there is no slash. *)
Inductive mask_arg : Type :=
| MaskStr (s : string)
| MaskInt (n : Z).

(** [_IPAddressBase._split_addr_prefix] for a [str] argument *)
Definition _split_addr_prefix (address : string) : outcome (string * mask_arg) :=
  parts ← _split_optional_netmask address;
  match parts with
  | [a] => Returns (a, MaskInt _max_prefixlen)
  | [a; m] => Returns (a, MaskStr m)
  | _ => Raises AddressValueError
  end.

(** [_IPAddressBase._prefix_from_prefix_string] *)
Definition _prefix_from_prefix_string (prefixlen_str : string) : outcome Z :=
  if negb (isascii prefixlen_str && isdigit prefixlen_str)
  then Raises NetmaskValueError
  else
    prefixlen ← try_except (int_of_digits prefixlen_str) is_ValueError
                           (fun _ => Raises NetmaskValueError);
    if negb ((0 <=? prefixlen) && (prefixlen <=? _max_prefixlen))
    then Raises NetmaskValueError
    else Returns prefixlen.

(** [n.bit_length()] for [n >= 0] *)
Definition bit_length (n : Z) : Z :=
  if n =? 0 then 0 else Z.log2 n + 1.

(** [_count_righthand_zero_bits]; [~number & (number-1)] is taken on
    Python's unbounded two's complement integers, as [Z.lnot]/[Z.land]. *)
Definition _count_righthand_zero_bits (number bits : Z) : Z :=
  if number =? 0 then bits
  else Z.min bits (bit_length (Z.land (Z.lnot number) (number - 1))).

(** [_IPAddressBase._prefix_from_ip_int] *)
Definition _prefix_from_ip_int (ip_int : Z) : outcome Z :=
  let trailing_zeroes := _count_righthand_zero_bits ip_int _max_prefixlen in
  let prefixlen := _max_prefixlen - trailing_zeroes in
  let leading_ones := Z.shiftr ip_int trailing_zeroes in
  let all_ones := Z.shiftl 1 prefixlen - 1 in
  if negb (leading_ones =? all_ones) then Raises ValueError
  else Returns prefixlen.

(** [_IPAddressBase._prefix_from_ip_string] *)
Definition _prefix_from_ip_string (ip_str : string) : outcome Z :=
  ip_int ← try_except (_ip_int_from_string ip_str)
                      (fun e => match e with AddressValueError => true | _ => false end)
                      (fun _ => Raises NetmaskValueError);
  match _prefix_from_ip_int ip_int with
  | Returns p => Returns p
  | Raises e =>
      if is_ValueError e then
        let ip_int := Z.lxor ip_int _ALL_ONES in
        try_except (_prefix_from_ip_int ip_int) is_ValueError
                   (fun _ => Raises NetmaskValueError)
      else Raises e
  end.

(** [_IPAddressBase._ip_int_from_prefix] *)
Definition _ip_int_from_prefix (prefixlen : Z) : Z :=
  Z.lxor _ALL_ONES (Z.shiftr _ALL_ONES prefixlen).

(** [_BaseV4._make_netmask]; the class-level cache only memoises this
    function of its argument.  Returns [(netmask, prefixlen)]. *)
Definition _make_netmask (arg : mask_arg) : outcome (Z * Z) :=
  prefixlen ←
    match arg with
    | MaskInt prefixlen =>
        if negb ((0 <=? prefixlen) && (prefixlen <=? _max_prefixlen))
        then Raises NetmaskValueError
        else Returns prefixlen
    | MaskStr s =>
        try_except (_prefix_from_prefix_string s)
                   (fun e => match e with NetmaskValueError => true | _ => false end)
                   (fun _ => _prefix_from_ip_string s)
    end;
  netmask ← IPv4Address_of_int (_ip_int_from_prefix prefixlen);
  Returns (netmask, prefixlen).

(** An [IPv4Network] object: the fields [__init__] sets, and [addr], the
    address text its [hosts] override for a /32 closes over. *)
Record IPv4Network_obj : Type := {
  network_address : Z;
  netmask : Z;
  _prefixlen : Z;
  addr : string
}.

(** [IPv4Network(address, strict)] for a [str] argument *)
Definition IPv4Network (address : string) (strict : bool) : outcome IPv4Network_obj :=
  '(addr, mask) ← _split_addr_prefix address;
  network_address ← IPv4Address addr;
  '(netmask, prefixlen) ← _make_netmask mask;
  let packed := network_address in
  network_address ←
    (if negb (Z.land packed netmask =? packed) then
       if strict then Raises ValueError
       else IPv4Address_of_int (Z.land packed netmask)
     else Returns network_address);
  Returns {| network_address := network_address; netmask := netmask;
             _prefixlen := prefixlen; addr := addr |}.

(** [_BaseNetwork.hostmask] *)
Definition hostmask (self : IPv4Network_obj) : outcome Z :=
  IPv4Address_of_int (Z.lxor (netmask self) _ALL_ONES).

(** [_BaseNetwork.broadcast_address] *)
Definition broadcast_address (self : IPv4Network_obj) : outcome Z :=
  hm ← hostmask self;
  IPv4Address_of_int (Z.lor (network_address self) hm).

(** [range(a, b)] *)
Definition range (a b : Z) : list Z := seqZ a (b - a).

(** [_BaseNetwork.__iter__], run to completion *)
Definition __iter__ (self : IPv4Network_obj) : outcome (list Z) :=
  let network := network_address self in
  broadcast ← broadcast_address self;
  mapM IPv4Address_of_int (range network (broadcast + 1)).

(** [_BaseNetwork.hosts], run to completion *)
Definition _BaseNetwork_hosts (self : IPv4Network_obj) : outcome (list Z) :=
  let network := network_address self in
  broadcast ← broadcast_address self;
  mapM IPv4Address_of_int (range (network + 1) broadcast).

(** [network.hosts()]: [IPv4Network.__init__] rebinds [hosts] on the
    instance for prefix lengths 31 and 32. *)
Definition hosts (self : IPv4Network_obj) : outcome (list Z) :=
  if _prefixlen self =? _max_prefixlen - 1 then __iter__ self
  else if _prefixlen self =? _max_prefixlen then
    a ← IPv4Address (addr self); Returns [a]
  else _BaseNetwork_hosts self.

End ipaddress.

(** ** Console output *)

(** One constructor per [print] call of the script; the arguments are the
    values interpolated into the text. *)
Inductive line : Type :=
| ErrorParsingRange (ip_range : string) (e : exn)
| NoResults
| RoundRobinHeader (timestamp : string)
| TableHeader
| ResultRow (round_robin : bool) (ip : string) (is_alive : bool) (message : string)
| StatusLine (alive_count total_count : Z) (rate : Q)
| SummaryLine (alive_count total_count dead_count : Z)
| SuccessRateLine (rate : Q)
| MonitorBanner (n interval timeout count : Z)
| CheckingLine (n : Z)
| ProgressIndex (i n : Z)
| PingProgress (ip : string) (is_alive : bool) (message : string)
| UptimeHeader (n : Z)
| UptimeLine (ip : string) (uptime : Q)
| BlankLine
| NextCheckLine (interval check_count : Z)
| MonitoringStopped
| FinalStatisticsHeader
| FinalStatLine (ip : string) (successful_checks total_checks : Z) (uptime : Q)
| ScanBanner (total workers : Z)
| ScanProgress (completed total : Z) (is_alive : bool) (ip : string).

(** ** [expand_ip_range] *)

Import PyStr ipaddress.

(** Lines 113-118: the [while current <= end_ip] loop of the range branch.
    [current += 1] builds a new [IPv4Address] and so may raise. *)
Equations? range_loop (current end_ip : Z) (ips : list string) : outcome (list string)
  by wf (Z.to_nat (end_ip + 1 - current)) lt :=
range_loop current end_ip ips with decide (current <= end_ip) := {
  | left _ with inspect (IPv4Address_add current 1) := {
      | exist _ (Returns next) Hnext =>
          range_loop next end_ip (ips ++ [_string_from_ip_int current])
      | exist _ (Raises e) _ => Raises e }
  | right _ => Returns ips }.
Proof.
  unfold IPv4Address_add, IPv4Address_of_int, _check_int_address in Hnext.
  repeat case_match; simplify_eq/=; lia.
Qed.

(** Lines 99-124: the body of the [try] block. *)
Definition expand_ip_range_try (ip_range : string) : outcome (list string) :=
  if contains "/" ip_range then
    network ← IPv4Network ip_range false;
    hs ← hosts network;
    Returns (map _string_from_ip_int hs)
  else if contains "-" ip_range then
    match split1 "-" ip_range with
    | start_ip_str :: end_ip_str :: nil =>
        start_ip ← IPv4Address (strip start_ip_str);
        end_ip ← IPv4Address (strip end_ip_str);
        if end_ip <? start_ip then Raises ValueError
        else range_loop start_ip end_ip []
    | _ => Raises ValueError
    end
  else
    _ ← IPv4Address ip_range;
    Returns [ip_range].

(** Lines 98-128: the whole function.  The result is what the call does
    (return or raise) and what it printed. *)
Definition expand_ip_range (ip_range : string) : outcome (list string) * list line :=
  match expand_ip_range_try ip_range with
  | Returns ips => (Returns ips, [])
  | Raises e =>
      if is_Exception e then (Returns [], [ErrorParsingRange ip_range e])
      else (Raises e, [])
  end.

(** ** Printing and raising together *)

(** What a call did: how it ended and what it printed. *)
Definition io (A : Type) : Type := (outcome A * list line)%type.

Definition io_ret {A} (a : A) : io A := (Returns a, []).

Definition io_bind {A B} (c : io A) (f : A -> io B) : io B :=
  match c with
  | (Returns a, out) => let '(r, out') := f a in (r, (out ++ out')%list)
  | (Raises e, out) => (Raises e, out)
  end.

Definition print (l : line) : io unit := (Returns tt, [l]).

Definition lift {A} (c : outcome A) : io A := (c, []).

Notation "x <~ c ;; k" := (io_bind c (fun x => k))
  (at level 100, c at next level, right associativity).
Notation "c ;;; k" := (io_bind c (fun _ => k))
  (at level 100, right associativity).

(** [when b: c] *)
Definition when (b : bool) (c : io unit) : io unit :=
  if b then c else io_ret tt.

(** [for x in xs: body] with the loop variables threaded as [acc]. *)
Fixpoint for_each {A S} (xs : list A) (acc : S) (body : S -> A -> io S) : io S :=
  match xs with
  | [] => io_ret acc
  | x :: xs' => acc' <~ body acc x ;; for_each xs' acc' body
  end.

(** [a / b] on [int]s (true division). *)
Definition py_truediv (a b : Z) : outcome Q :=
  if b =? 0 then Raises ZeroDivisionError
  else Returns (inject_Z a / inject_Z b)%Q.

(** [(a / b) * 100] *)
Definition percent (a b : Z) : outcome Q :=
  q ← py_truediv a b; Returns (q * 100)%Q.

(** [len(l)] and [sum(l)] for a list of [bool]s *)
Definition list_len {A} (l : list A) : Z := Z.of_nat (length l).
Definition sum_bools (l : list bool) : Z :=
  fold_left (fun acc (b : bool) => acc + (if b then 1 else 0)) l 0.

(** ** [ping_ip] *)

(** What [subprocess.run] did, which the script cannot influence. *)
Inductive run_result : Type :=
| Completed (returncode : Z)
| TimeoutExpired
| RunError (cause : string).

(** [(ip_address, is_alive, message)] *)
Definition ProbeResult : Type := (string * bool * string)%type.

Definition address_of (r : ProbeResult) : string := r.1.1.
Definition is_alive_of (r : ProbeResult) : bool := r.1.2.
Definition message_of (r : ProbeResult) : string := r.2.

(** Lines 64-80: the tuple returned for each way [subprocess.run] can end. *)
Definition ping_result (ran : run_result) (ip_address : string) : ProbeResult :=
  match ran with
  | Completed returncode =>
      if returncode =? 0 then (ip_address, true, "Alive")
      else (ip_address, false, "Not reachable")
  | TimeoutExpired => (ip_address, false, "Timeout")
  | RunError cause => (ip_address, false, "Error: " +:+ cause)
  end.

(** Lines 44-80. *)
Definition ping_ip (ran : run_result) (ip_address : string) (show_progress : bool)
    : io ProbeResult :=
  let result := ping_result ran ip_address in
  when show_progress
    (print (PingProgress ip_address (is_alive_of result) (message_of result))) ;;;
  io_ret result.

(** ** [check_ips_parallel] *)

(** A [Future] is identified by the position of its [submit] call. *)
Abbreviation Future := nat (only parsing).

(** Lines 182-185: the dict comprehension; every [submit] returns a new
    [Future], so the keys are distinct objects. *)
Definition submit_all (ip_addresses : list string) : gmap Future string :=
  map_seq 0 ip_addresses.

(** [ThreadPoolExecutor(max_workers=...)] refuses a pool without workers. *)
Definition ThreadPoolExecutor (max_workers : Z) : outcome unit :=
  if max_workers <=? 0 then Raises ValueError else Returns tt.

(** [as_completed(fs)] yields every future of [fs] once, in the order in
    which they finish; that order is not in the script's hands. *)
Definition as_completed (fs : gmap Future string) (order : list Future) : Prop :=
  order ≡ₚ elements (dom fs).

(** Lines 191-201: the body of the collecting loop, for one completed
    future; [ran f] is what [subprocess.run] did for future [f]. *)
Definition collect_result (future_to_ip : gmap Future string) (total : Z)
    (show_progress : bool) (ran : Future -> run_result)
    (acc : list ProbeResult * Z) (future : Future) : io (list ProbeResult * Z) :=
  let '(results, completed) := acc in
  match future_to_ip !! future with
  | None => io_ret (results, completed)
  | Some ip =>
      result <~ (lift (ping_ip (ran future) ip false).1) ;;
      let results := (results ++ [result])%list in
      let completed := completed + 1 in
      when show_progress
        (print (ScanProgress completed total (is_alive_of result) ip)) ;;;
      io_ret (results, completed)
  end.

(** Lines 176-203.  [completion_order] is the order [as_completed]
    yields. *)
Definition check_ips_parallel (ip_addresses : list string) (max_workers : Z)
    (show_progress : bool) (ran : Future -> run_result)
    (completion_order : list Future) : io (list ProbeResult) :=
  let results : list ProbeResult := [] in
  let completed := 0 in
  let total := list_len ip_addresses in
  lift (ThreadPoolExecutor max_workers) ;;;
  let future_to_ip := submit_all ip_addresses in
  when show_progress (print (ScanBanner total (Z.min max_workers total))) ;;;
  acc <~ for_each completion_order (results, completed)
           (collect_result future_to_ip total show_progress ran) ;;
  io_ret acc.1.

(** ** [print_results] *)

(** [list.sort(key=...)] is stable: elements with equal keys keep their
    order.  Insertion from the right with [<=] on the keys computes that
    arrangement; [String.leb] is Python's order on [str] (by code point). *)
Fixpoint insert_by_key {A} (key : A -> string) (x : A) (l : list A) : list A :=
  match l with
  | [] => [x]
  | y :: l' =>
      if String.leb (key x) (key y) then x :: l
      else y :: insert_by_key key x l'
  end.

Fixpoint list_sort {A} (key : A -> string) (l : list A) : list A :=
  match l with
  | [] => []
  | x :: l' => insert_by_key key x (list_sort key l')
  end.

(** Lines 234-245: the body of the row loop. *)
Definition print_row (round_robin : bool) (alive_count : Z) (r : ProbeResult)
    : io Z :=
  let '(ip, is_alive, message) := r in
  print (ResultRow round_robin ip is_alive message) ;;;
  io_ret (if is_alive then alive_count + 1 else alive_count).

(** Lines 248-256. *)
Definition print_summary (round_robin : bool) (alive_count total_count : Z)
    : io unit :=
  let dead_count := total_count - alive_count in
  if round_robin then
    rate <~ lift (percent alive_count total_count) ;;
    print (StatusLine alive_count total_count rate)
  else
    print (SummaryLine alive_count total_count dead_count) ;;;
    rate <~ lift (percent alive_count total_count) ;;
    print (SuccessRateLine rate).

(** Lines 216-256.  The first component is the caller's list object after
    the call: [results.sort] works in place. *)
Definition print_results (results : list ProbeResult) (show_summary round_robin : bool)
    (timestamp : string) : list ProbeResult * io unit :=
  match results with
  | [] => (results, print NoResults)
  | _ =>
      let results := list_sort address_of results in
      (results,
       (if round_robin then print (RoundRobinHeader timestamp)
        else print TableHeader) ;;;
       alive_count <~ for_each results 0 (print_row round_robin) ;;
       when show_summary
         (let total_count := list_len results in
          print_summary round_robin alive_count total_count))
  end.

(** ** [round_robin_monitor] *)

(** The handler the process has for [SIGINT]. *)
Inductive sigint_handler : Type :=
| default_int_handler
| signal_handler.

(** Delivery of [SIGINT] to the main thread.  Python's default handler
    raises [KeyboardInterrupt]; [signal_handler] (lines 275-277) prints
    and calls [sys.exit(0)], which raises [SystemExit]. *)
Definition deliver_sigint (h : sigint_handler) : io unit :=
  match h with
  | default_int_handler => lift (Raises KeyboardInterrupt)
  | signal_handler => print MonitoringStopped ;;; lift (Raises (SystemExit 0))
  end.

(** Where the interrupt finds the loop: while the ping of the address at
    position [k] of the current cycle runs ([k] below the length of the
    address list), or in [time.sleep]. *)
Inductive interrupt_point : Type :=
| DuringProbe (k : nat)
| DuringSleep.

(** Lines 300-302: append, then drop the oldest entry above 10. *)
Definition record_result (window : list bool) (is_alive : bool) : list bool :=
  let window := (window ++ [is_alive])%list in
  if 10 <? list_len window then tail window else window.

Section Monitor.

(** What [subprocess.run] does in cycle [c] for the address at position
    [i], and what the clock shows in cycle [c]. *)
Variable ran : Z -> nat -> run_result.
Variable now : Z -> string.

Variable ip_addresses : list string.
Variables interval timeout count : Z.

(** Line 283.  [history[ip]] below is the total lookup: every element of
    [ip_addresses] has a key from here on, so no [KeyError] can arise. *)
Definition initial_history : gmap string (list bool) :=
  list_to_map (map (fun ip => (ip, [])) ip_addresses).

(** Lines 294-302: the body of the probing loop, for the address [ip] at
    position [i]. *)
Definition probe_address (check_count : Z)
    (acc : list ProbeResult * gmap string (list bool)) (entry : nat * string)
    : io (list ProbeResult * gmap string (list bool)) :=
  let '(results, history) := acc in
  let '(i, ip) := entry in
  print (ProgressIndex (Z.of_nat i + 1) (list_len ip_addresses)) ;;;
  result <~ ping_ip (ran check_count i) ip true ;;
  let results := (results ++ [result])%list in
  let history :=
    <[ip := record_result (history !!! ip) (is_alive_of result)]> history in
  io_ret (results, history).

(** Lines 294-302, for the addresses at positions [0 .. k-1]. *)
Definition probe_addresses (check_count : Z) (k : nat)
    (history : gmap string (list bool))
    : io (list ProbeResult * gmap string (list bool)) :=
  for_each (take k (imap (fun i ip => (i, ip)) ip_addresses)) ([], history)
    (probe_address check_count).

(** Lines 311-313: the body of the uptime loop. *)
Definition uptime_line (history : gmap string (list bool)) (_ : unit) (ip : string)
    : io unit :=
  match history !!! ip with
  | [] => io_ret tt
  | window =>
      uptime <~ lift (percent (sum_bools window) (list_len window)) ;;
      print (UptimeLine ip uptime)
  end.

(** Lines 308-314. *)
Definition uptime_statistics (check_count : Z) (history : gmap string (list bool))
    : io unit :=
  when (check_count mod 10 =? 0)
    (print (UptimeHeader (Z.min 10 check_count)) ;;;
     for_each ip_addresses tt (uptime_line history) ;;;
     print BlankLine).

(** Lines 287-317: one pass of the [while True] body up to the sleep.
    The state is [(check_count, history)]. *)
Definition cycle (st : Z * gmap string (list bool))
    : io (Z * gmap string (list bool)) :=
  let '(check_count, history) := st in
  let check_count := check_count + 1 in
  let timestamp := now check_count in
  print (CheckingLine (list_len ip_addresses)) ;;;
  probed <~ probe_addresses check_count (length ip_addresses) history ;;
  let '(results, history) := probed in
  (print_results results true true timestamp).2 ;;;
  uptime_statistics check_count history ;;;
  print (NextCheckLine interval check_count) ;;;
  io_ret (check_count, history).

(** [n] passes of the loop, each with its sleep. *)
Fixpoint cycles (n : nat) (st : Z * gmap string (list bool))
    : io (Z * gmap string (list bool)) :=
  match n with
  | O => io_ret st
  | S n' => st' <~ cycle st ;; cycles n' st'
  end.

(** The pass in which the interrupt arrives, up to that point. *)
Definition interrupted_cycle (pt : interrupt_point)
    (st : Z * gmap string (list bool)) : io (Z * gmap string (list bool)) :=
  match pt with
  | DuringSleep => cycle st
  | DuringProbe k =>
      let '(check_count, history) := st in
      let check_count := check_count + 1 in
      print (CheckingLine (list_len ip_addresses)) ;;;
      probed <~ probe_addresses check_count k history ;;
      let '(_, history) := probed in
      print (ProgressIndex (Z.of_nat k + 1) (list_len ip_addresses)) ;;;
      io_ret (check_count, history)
  end.

(** Lines 326-330: the body of the final loop. *)
Definition final_stat_line (history : gmap string (list bool)) (_ : unit)
    (ip : string) : io unit :=
  match history !!! ip with
  | [] => io_ret tt
  | window =>
      let total_checks := list_len window in
      let successful_checks := sum_bools window in
      uptime <~ lift (percent successful_checks total_checks) ;;
      print (FinalStatLine ip successful_checks total_checks uptime)
  end.

(** Lines 323-330. *)
Definition final_statistics (history : gmap string (list bool)) : io unit :=
  print FinalStatisticsHeader ;;;
  for_each ip_addresses tt (final_stat_line history).

(** Lines 285-330: the [try] statement, for a run in which [SIGINT]
    arrives after [n] complete passes at point [pt] of the next one, with
    [handler] installed.  The [except] clause names [KeyboardInterrupt]
    only.  The history the handler sees is the one at the interrupt. *)
Definition monitor_loop (handler : sigint_handler) (n : nat) (pt : interrupt_point)
    : io unit :=
  let st0 := (0, initial_history) in
  match cycles n st0 with
  | (Raises e, out) => (Raises e, out)
  | (Returns st1, out1) =>
      match interrupted_cycle pt st1 with
      | (Raises e, out2) => (Raises e, (out1 ++ out2)%list)
      | (Returns (check_count, history), out2) =>
          match deliver_sigint handler with
          | (Raises KeyboardInterrupt, out3) =>
              let '(r, out4) :=
                print MonitoringStopped ;;; final_statistics history in
              (r, (out1 ++ out2 ++ out3 ++ out4)%list)
          | (r, out3) => (r, (out1 ++ out2 ++ out3)%list)
          end
      end
  end.

(** Lines 269-330: the function, for such a run.  Line 279 installs
    [signal_handler] before the loop starts. *)
Definition round_robin_monitor (n : nat) (pt : interrupt_point) : io unit :=
  print (MonitorBanner (list_len ip_addresses) interval timeout count) ;;;
  let handler := signal_handler in
  monitor_loop handler n pt.

(** The history after [n] complete passes. *)
Definition history_after (n : nat) : gmap string (list bool) :=
  match cycles n (0, initial_history) with
  | (Returns (_, history), _) => history
  | (Raises _, _) => ∅
  end.

End Monitor.

(** ** The command-line layer: [read_ips_from_file] and [main] *)

(** What the command-line layer prints: the lines of the functions above
    ([Core]) and one constructor per [print] call of its own. *)
Inductive console : Type :=
| Core (l : line)
| FileNotFoundLine (filename : string)
| FileErrorLine (filename : string)
| NoValidFileAddresses (file : string)
| CouldNotParseWarning (ip_arg : string)
| NoAddressesError
| HelpText
| TimeoutTooSmall
| CountTooSmall
| IntervalTooSmall
| CheckingAddresses (n : Z)
| UsingConnections (k : Z)
| QuietResults (alive_count total_count : Z)
| CompletedIn (seconds : Q).

(** A call of the command-line layer: how it ended and what it printed. *)
Definition mio (A : Type) : Type := (outcome A * list console)%type.

#[global] Instance mio_ret : MRet mio := fun A a => (Returns a, []).
#[global] Instance mio_bind : MBind mio := fun A B f c =>
  match c with
  | (Returns a, out) => let '(r, out') := f a in (r, (out ++ out')%list)
  | (Raises e, out) => (Raises e, out)
  end.

Definition say (l : console) : mio unit := (Returns tt, [l]).

(** [sys.exit(code)] *)
Definition sys_exit {A} (code : Z) : mio A := (Raises (SystemExit code), []).

(** A call of one of the functions above, made from this layer. *)
Definition of_io {A} (c : io A) : mio A := (c.1, map Core c.2).

(** [s.startswith(prefix)] *)
Definition startswith (prefix s : string) : bool := String.prefix prefix s.

(** What [open(filename, 'r')] and reading the lines give: the lines, each
    with its line end if it has one, or a failure. *)
Inductive open_result : Type :=
| Opened (lines : list string)
| FileNotFound
| ReadFailed.

(** Lines 145-152: the body of the loop over the lines of the file. *)
Definition read_line (ips : list string) (line : string) : io (list string) :=
  let line := strip line in
  if negb (String.eqb line "") && negb (startswith "#" line) then
    if contains "/" line || contains "-" line then
      expanded_ips <~ expand_ip_range line ;;
      io_ret (ips ++ expanded_ips)%list
    else io_ret (ips ++ [line])%list
  else io_ret ips.

(** Lines 141-159.  [opened] is what the file system gives for
    [filename].  Both handlers end in [sys.exit(1)]. *)
Definition read_ips_from_file (opened : open_result) (filename : string)
    : mio (list string) :=
  match opened with
  | FileNotFound => say (FileNotFoundLine filename);; sys_exit 1
  | ReadFailed => say (FileErrorLine filename);; sys_exit 1
  | Opened lines =>
      match for_each lines [] read_line with
      | (Returns ips, out) => of_io (Returns ips, out)
      | (Raises e, out) =>
          if is_Exception e
          then of_io (Returns tt, out);; say (FileErrorLine filename);; sys_exit 1
          else of_io (Raises e, out)
      end
  end.

(** The parsed command line ([argparse] is not modelled). *)
Record Args : Type := {
  arg_ip_addresses : list string;
  arg_file : option string;
  arg_timeout : Z;
  arg_count : Z;
  arg_workers : Z;
  arg_round_robin : bool;
  arg_interval : Z;
  arg_quiet : bool;
  arg_no_summary : bool;
  arg_show_progress : bool
}.

(** What [main] meets outside the script: the file system, what the pings
    of a batch run do and in which order they finish, the clock, and for
    the monitor what its pings do, its clock and where the interrupt finds
    it. *)
Record World : Type := {
  file_system : string -> open_result;
  scan_ran : Future -> run_result;
  scan_order : list Future;
  elapsed : Q;
  monitor_ran : Z -> nat -> run_result;
  monitor_now : Z -> string;
  monitor_passes : nat;
  monitor_interrupt : interrupt_point
}.

(** Lines 384-390. *)
Definition targets_from_file (args : Args) (w : World) : mio (list string) :=
  match arg_file args with
  | Some file =>
      if String.eqb file "" then mret []
      else
        file_ips ← read_ips_from_file (file_system w file) file;
        match file_ips with
        | [] => say (NoValidFileAddresses file);; sys_exit 1
        | _ => mret file_ips
        end
  | None => mret []
  end.

(** Lines 393-402: the body of the loop over the positional arguments. *)
Definition add_argument (ip_addresses : list string) (ip_arg : string)
    : mio (list string) :=
  if contains "/" ip_arg || contains "-" ip_arg then
    expanded_ips ← of_io (expand_ip_range ip_arg);
    match expanded_ips with
    | [] => say (CouldNotParseWarning ip_arg);; mret ip_addresses
    | _ => mret (ip_addresses ++ expanded_ips)%list
    end
  else mret (ip_addresses ++ [ip_arg])%list.

(** [for x in xs: body] in this layer. *)
Fixpoint mfor_each {A S} (xs : list A) (acc : S) (body : S -> A -> mio S) : mio S :=
  match xs with
  | [] => mret acc
  | x :: xs' => acc' ← body acc x; mfor_each xs' acc' body
  end.

(** Lines 381-407: the list of addresses to check. *)
Definition collect_targets (args : Args) (w : World) : mio (list string) :=
  ip_addresses ← targets_from_file args w;
  ip_addresses ← mfor_each (arg_ip_addresses args) ip_addresses add_argument;
  match ip_addresses with
  | [] => say NoAddressesError;; say HelpText;; sys_exit 1
  | _ => mret ip_addresses
  end.

(** Lines 409-420. *)
Definition validate (args : Args) : mio unit :=
  (if arg_timeout args <? 1 then say TimeoutTooSmall;; sys_exit 1 else mret tt);;
  (if arg_count args <? 1 then say CountTooSmall;; sys_exit 1 else mret tt);;
  (if arg_interval args <? 1 then say IntervalTooSmall;; sys_exit 1 else mret tt).

(** Lines 432-459: the one-time check. *)
Definition one_time_check (ip_addresses : list string) (args : Args) (w : World)
    : mio unit :=
  (if negb (arg_show_progress args) then
     say (CheckingAddresses (list_len ip_addresses));;
     if 1 <? list_len ip_addresses
     then say (UsingConnections (Z.min (arg_workers args) (list_len ip_addresses)))
     else mret tt
   else mret tt);;
  results ← of_io (check_ips_parallel ip_addresses (arg_workers args)
                     (arg_show_progress args) (scan_ran w) (scan_order w));
  (if negb (arg_quiet args) then
     of_io (print_results results (negb (arg_no_summary args)) false "").2
   else
     let alive_count := list_len (List.filter is_alive_of results) in
     let total_count := list_len results in
     say (QuietResults alive_count total_count));;
  say (CompletedIn (elapsed w)).

(** Lines 333-459. *)
Definition main (args : Args) (w : World) : mio unit :=
  ip_addresses ← collect_targets args w;
  validate args;;
  if arg_round_robin args then
    of_io (round_robin_monitor (monitor_ran w) (monitor_now w) ip_addresses
             (arg_interval args) (arg_timeout args) (arg_count args)
             (monitor_passes w) (monitor_interrupt w))
  else one_time_check ip_addresses args w.

(** * Vocabulary of the properties *)

(** [raises_in cls c]: if [c] raises, the exception is in class [cls]. *)
Definition raises_in {A} (cls : exn -> bool) (c : outcome A) : Prop :=
  match c with
  | Returns _ => True
  | Raises e => cls e = true
  end.

(** [except AddressValueError] *)
Definition is_AddressValueError (e : exn) : bool :=
  match e with AddressValueError => true | _ => false end.

(** The values of one byte of an address, and of a whole address. *)
Definition is_octet (b : Z) : Prop := 0 <= b < 256.
Definition is_ip_int (x : Z) : Prop := 0 <= x <= _ALL_ONES.

(** What the round trip needs of the text of one octet, as a check that
    runs. *)
Definition octet_text_ok (b : Z) : bool :=
  let t := str_of_int b in
  match _parse_octet t with
  | Returns b' => (b' =? b) && negb (String.eqb t "") && isdigit t
  | Raises _ => false
  end.

(** The prefix lengths of IPv4. *)
Definition is_prefixlen (p : Z) : Prop := 0 <= p <= _max_prefixlen.

(** The netmask and the hostmask of prefix length [p] as numbers, as a
    check that runs. *)
Definition prefix_mask_ok (p : Z) : bool :=
  (_ip_int_from_prefix p =? 2 ^ 32 - 2 ^ (32 - p))
  && (Z.lxor (_ip_int_from_prefix p) _ALL_ONES =? 2 ^ (32 - p) - 1).

(** Size of a network with prefix length [p]. *)
Definition network_size (p : Z) : Z := 2 ^ (IPV4LENGTH - p).

(** The hosts of a network, by prefix length. *)
Definition hosts_of (net p : Z) : list Z :=
  if p =? 31 then [net; net + 1]
  else if p =? 32 then [net]
  else seqZ (net + 1) (network_size p - 2).

(** The numeric values of a list of address texts. *)
Definition numeric (ips : list string) : outcome (list Z) := mapM IPv4Address ips.

(** The result the scan stores for future [f]. *)
Definition result_of_future (ran : Future -> run_result) (ips : list string)
    (f : Future) : ProbeResult :=
  ping_result (ran f) (default "" (ips !! f)).

(** Order of two results by address text, as [results.sort] compares. *)
Definition address_le (r1 r2 : ProbeResult) : Prop :=
  String.leb (address_of r1) (address_of r2) = true.

(** [alive_count] as a function of the list. *)
Definition count_alive (results : list ProbeResult) : Z :=
  list_len (filter (fun r => is_alive_of r = true) results).

(** The table row of one result. *)
Definition result_row (round_robin : bool) (r : ProbeResult) : line :=
  ResultRow round_robin (address_of r) (is_alive_of r) (message_of r).

(** [alive_count / total_count * 100] *)
Definition success_rate (alive_count total_count : Z) : Q :=
  (inject_Z alive_count / inject_Z total_count * 100)%Q.

(** What [print_results] prints for a list that is not empty. *)
Definition table_lines (results : list ProbeResult) (show_summary round_robin : bool)
    (timestamp : string) : list line :=
  let alive_count := count_alive results in
  let total_count := list_len results in
  ((if round_robin then RoundRobinHeader timestamp else TableHeader)
   :: map (result_row round_robin) (list_sort address_of results))
  ++ (if show_summary then
        if round_robin
        then [StatusLine alive_count total_count
                (success_rate alive_count total_count)]
        else [SummaryLine alive_count total_count (total_count - alive_count);
              SuccessRateLine (success_rate alive_count total_count)]
      else []).

(** The lines printed by lines 324 and 330. *)
Definition is_final_statistics (l : line) : bool :=
  match l with
  | FinalStatisticsHeader | FinalStatLine _ _ _ _ => true
  | _ => false
  end.

(** No line of the final statistics is among [out]. *)
Definition no_final_statistics (out : list line) : Prop :=
  Forall (fun l => is_final_statistics l = false) out.

(** The last [n] elements of a list. *)
Definition last_n {A} (n : nat) (l : list A) : list A := drop (length l - n) l.

Section MonitorVocabulary.

Variable ran : Z -> nat -> run_result.
Variable ip_addresses : list string.

(** The positions and addresses the probing loop walks through. *)
Definition entries : list (nat * string) :=
  imap (fun i ip => (i, ip)) ip_addresses.

(** Whether the probe of position [i] in cycle [c] found [ip] alive. *)
Definition alive_at (c : Z) (i : nat) (ip : string) : bool :=
  is_alive_of (ping_result (ran c i) ip).

(** What one iteration of the probing loop does to its variables. *)
Definition probe_step (c : Z) (acc : list ProbeResult * gmap string (list bool))
    (entry : nat * string) : list ProbeResult * gmap string (list bool) :=
  ((acc.1 ++ [ping_result (ran c entry.1) entry.2])%list,
   <[entry.2 := record_result (acc.2 !!! entry.2) (alive_at c entry.1 entry.2)]>
     acc.2).

(** The results cycle [c] appends to the window of [addr], in order. *)
Definition cycle_outcomes (c : Z) (es : list (nat * string)) (addr : string)
    : list bool :=
  map (fun e => alive_at c e.1 e.2) (filter (fun e => e.2 = addr) es).

(** The history after the probing loop of cycle [c]. *)
Definition history_step (c : Z) (history : gmap string (list bool))
    : gmap string (list bool) :=
  (fold_left (probe_step c) entries ([], history)).2.

(** The history after [n] cycles that follow cycle [c]. *)
Fixpoint history_iter (n : nat) (c : Z) (history : gmap string (list bool))
    : gmap string (list bool) :=
  match n with
  | O => history
  | S n' => history_iter n' (c + 1) (history_step (c + 1) history)
  end.

(** The results cycles [c+1 .. c+n] append to the window of [addr]. *)
Fixpoint outcomes_iter (n : nat) (c : Z) (addr : string) : list bool :=
  match n with
  | O => []
  | S n' => (cycle_outcomes (c + 1) entries addr ++ outcomes_iter n' (c + 1) addr)%list
  end.

End MonitorVocabulary.

(** The three ways to write the mask of prefix length [p] (the length, the
    dotted netmask, and for lengths 1 to 31 the dotted hostmask) are read
    as that prefix length: a check that runs. *)
Definition mask_text_ok (p : Z) : bool :=
  let expected := Returns (_ip_int_from_prefix p, p) in
  let same (c : outcome (Z * Z)) :=
    match c with
    | Returns (nm, q) => (nm =? _ip_int_from_prefix p) && (q =? p)
    | Raises _ => false
    end in
  same (_make_netmask (MaskStr (str_of_int p)))
  && same (_make_netmask (MaskStr (_string_from_ip_int (_ip_int_from_prefix p))))
  && (if (1 <=? p) && (p <=? 31)
      then same (_make_netmask
                   (MaskStr (_string_from_ip_int
                               (Z.lxor (_ip_int_from_prefix p) _ALL_ONES))))
      else true).

(** The lines of the uptime block (lines 309-314). *)
Definition is_uptime_line (l : line) : bool :=
  match l with
  | UptimeHeader _ | UptimeLine _ _ | BlankLine => true
  | _ => false
  end.

(** The uptime percentage of a window: [sum(w) / len(w) * 100]. *)
Definition uptime_of (window : list bool) : Q :=
  success_rate (sum_bools window) (list_len window).

(** How often [addr] occurs in the address list. *)
Definition occurrences (addr : string) (ips : list string) : Z :=
  list_len (filter (fun ip => ip = addr) ips).

(** The list [expand_ip_range] returns for [spec]. *)
Definition expanded (spec : string) : list string :=
  match (expand_ip_range spec).1 with
  | Returns ips => ips
  | Raises _ => []
  end.

(** Whether a stripped line of a target file is skipped (lines 146). *)
Definition skipped_line (line : string) : bool :=
  String.eqb line "" || startswith "#" line.

(** Whether a text is handed to [expand_ip_range] (lines 148 and 395). *)
Definition is_range_text (s : string) : bool := contains "/" s || contains "-" s.

(** The addresses one line of a target file stands for. *)
Definition line_targets (line : string) : list string :=
  let line := strip line in
  if skipped_line line then []
  else if is_range_text line then expanded line
  else [line].

(** The addresses one positional argument stands for. *)
Definition argument_targets (ip_arg : string) : list string :=
  if is_range_text ip_arg then expanded ip_arg else [ip_arg].

(** A command line with the defaults of the parser (lines 358-377) for the
    options that are not given here. *)
Definition batch_args (ip_addresses : list string) (file : option string)
    (workers interval : Z) : Args :=
  {| arg_ip_addresses := ip_addresses; arg_file := file;
     arg_timeout := 3; arg_count := 1; arg_workers := workers;
     arg_round_robin := false; arg_interval := interval;
     arg_quiet := false; arg_no_summary := false; arg_show_progress := false |}.

(** A world in which [files] is the file system, every ping of a batch run
    fails and the pings finish in the order [order]. *)
Definition dead_world (files : string -> open_result) (order : list Future) : World :=
  {| file_system := files; scan_ran := fun _ => Completed 1; scan_order := order;
     elapsed := 0; monitor_ran := fun _ _ => Completed 1;
     monitor_now := fun _ => ""; monitor_passes := 0;
     monitor_interrupt := DuringSleep |}.

(** The progress line of the [k]-th future to complete (counting from 0). *)
Definition progress_line (ran : Future -> run_result) (ips : list string)
    (start : Z) (k : nat) (f : Future) : line :=
  ScanProgress (start + Z.of_nat k + 1) (list_len ips)
    (is_alive_of (result_of_future ran ips f)) (address_of (result_of_future ran ips f)).

(** What a scan prints. *)
Definition scan_output (ran : Future -> run_result) (ips : list string)
    (max_workers : Z) (show_progress : bool) (order : list Future) : list line :=
  if show_progress then
    ScanBanner (list_len ips) (Z.min max_workers (list_len ips))
    :: imap (progress_line ran ips 0) order
  else [].

(** * Properties *)

(** ** Which exceptions the translated library calls can raise *)

Lemma raises_in_bind {A B} cls (c : outcome A) (f : A -> outcome B) :
  raises_in cls c -> (forall a, c = Returns a -> raises_in cls (f a)) ->
  raises_in cls (c ≫= f).
Proof. destruct c; simpl; auto. Qed.

Lemma raises_in_fmap {A B} cls (c : outcome A) (f : A -> B) :
  raises_in cls c -> raises_in cls (f <$> c).
Proof. destruct c; simpl; auto. Qed.

Lemma raises_in_mapM {A B} cls (f : A -> outcome B) (l : list A) :
  (forall a, a ∈ l -> raises_in cls (f a)) -> raises_in cls (mapM f l).
Proof.
  induction l as [|a l IH]; intros Hf; simpl; [exact I|].
  apply raises_in_bind; [apply Hf; left|]. intros b _.
  apply raises_in_bind; [apply IH; intros; apply Hf; by right|].
  intros bs _. exact I.
Qed.

Lemma raises_in_try_except {A} cls cls' (c : outcome A) h :
  (forall e, c = Raises e -> cls' e = false -> cls e = true) ->
  (forall e, c = Raises e -> cls' e = true -> raises_in cls (h e)) ->
  raises_in cls (try_except c cls' h).
Proof.
  intros H1 H2. destruct c as [a|e]; simpl; [exact I|].
  destruct (cls' e) eqn:He; [by apply H2|]. simpl. by apply H1.
Qed.

Lemma raises_in_weaken {A} (cls cls' : exn -> bool) (c : outcome A) :
  (forall e, cls e = true -> cls' e = true) -> raises_in cls c -> raises_in cls' c.
Proof. destruct c; simpl; auto. Qed.

Lemma _parse_octet_raises s : raises_in is_ValueError (_parse_octet s).
Proof.
  unfold _parse_octet, int_of_digits.
  repeat case_match; simpl; try done; repeat case_match; done.
Qed.

Lemma _ip_int_from_string_raises s :
  raises_in is_AddressValueError (_ip_int_from_string s).
Proof.
  unfold _ip_int_from_string. repeat case_match; try done.
  apply raises_in_try_except; [|done].
  intros e He Hcls. exfalso.
  pose proof (raises_in_fmap is_ValueError (mapM _parse_octet (split "." s))
                from_bytes_big) as Hr.
  rewrite He in Hr. simpl in Hr. rewrite Hr in Hcls; [done|].
  apply raises_in_mapM. intros; apply _parse_octet_raises.
Qed.

Lemma IPv4Address_raises s : raises_in is_AddressValueError (IPv4Address s).
Proof.
  unfold IPv4Address. case_match; [done|]. apply _ip_int_from_string_raises.
Qed.

Lemma IPv4Address_of_int_raises n :
  raises_in is_AddressValueError (IPv4Address_of_int n).
Proof.
  unfold IPv4Address_of_int, _check_int_address. repeat case_match; done.
Qed.

Lemma is_AddressValueError_ValueError e :
  is_AddressValueError e = true -> is_ValueError e = true.
Proof. by destruct e. Qed.

Lemma _prefix_from_prefix_string_raises s :
  raises_in is_ValueError (_prefix_from_prefix_string s).
Proof.
  unfold _prefix_from_prefix_string, int_of_digits.
  repeat case_match; simpl; try done; repeat case_match; done.
Qed.

Lemma _prefix_from_ip_string_raises s :
  raises_in is_ValueError (_prefix_from_ip_string s).
Proof.
  unfold _prefix_from_ip_string.
  pose proof (_ip_int_from_string_raises s) as H.
  destruct (_ip_int_from_string s) as [n|e]; simpl in *.
  - unfold _prefix_from_ip_int. repeat case_match; simplify_eq/=; done.
  - destruct e; simpl in *; done.
Qed.

Lemma _make_netmask_raises arg : raises_in is_ValueError (_make_netmask arg).
Proof.
  unfold _make_netmask.
  apply raises_in_bind.
  - destruct arg as [s|n]; [|repeat case_match; done].
    pose proof (_prefix_from_prefix_string_raises s) as H.
    destruct (_prefix_from_prefix_string s) as [p|e]; simpl in *; [done|].
    pose proof (_prefix_from_ip_string_raises s).
    destruct e; simpl in *; done.
  - intros p _. apply raises_in_bind; [|done].
    eapply raises_in_weaken, IPv4Address_of_int_raises.
    apply is_AddressValueError_ValueError.
Qed.

Lemma IPv4Network_raises s strict : raises_in is_ValueError (IPv4Network s strict).
Proof.
  unfold IPv4Network.
  apply raises_in_bind.
  { unfold _split_addr_prefix, _split_optional_netmask.
    repeat case_match; simpl; try done; repeat case_match; done. }
  intros [a m] _. apply raises_in_bind.
  { eapply raises_in_weaken, IPv4Address_raises.
    apply is_AddressValueError_ValueError. }
  intros x _. apply raises_in_bind; [apply _make_netmask_raises|].
  intros [nm p] _. apply raises_in_bind; [|done].
  repeat case_match; try done.
  eapply raises_in_weaken, IPv4Address_of_int_raises.
  apply is_AddressValueError_ValueError.
Qed.

Lemma broadcast_address_raises nw :
  raises_in is_AddressValueError (broadcast_address nw).
Proof.
  unfold broadcast_address, hostmask.
  apply raises_in_bind; [apply IPv4Address_of_int_raises|].
  intros; apply IPv4Address_of_int_raises.
Qed.

Lemma hosts_raises nw : raises_in is_AddressValueError (hosts nw).
Proof.
  unfold hosts, __iter__, _BaseNetwork_hosts.
  repeat case_match.
  - apply raises_in_bind; [apply broadcast_address_raises|].
    intros; apply raises_in_mapM; intros; apply IPv4Address_of_int_raises.
  - apply raises_in_bind; [apply IPv4Address_raises|done].
  - apply raises_in_bind; [apply broadcast_address_raises|].
    intros; apply raises_in_mapM; intros; apply IPv4Address_of_int_raises.
Qed.

Lemma range_loop_raises current end_ip ips :
  raises_in is_AddressValueError (range_loop current end_ip ips).
Proof.
  funelim (range_loop current end_ip ips); try done.
  pose proof (IPv4Address_of_int_raises (current + 1)) as Hr.
  match goal with
  | Hadd : IPv4Address_add _ _ = Raises _ |- _ =>
      unfold IPv4Address_add in Hadd; by rewrite Hadd in Hr
  end.
Qed.

Lemma expand_ip_range_try_raises s :
  raises_in is_ValueError (expand_ip_range_try s).
Proof.
  unfold expand_ip_range_try.
  destruct (contains "/" s).
  { apply raises_in_bind; [apply IPv4Network_raises|]. intros nw _.
    apply raises_in_bind; [|done].
    eapply raises_in_weaken, hosts_raises. apply is_AddressValueError_ValueError. }
  destruct (contains "-" s).
  { destruct (split1 "-" s) as [|a [|b [|? ?]]]; try done.
    apply raises_in_bind.
    { eapply raises_in_weaken, IPv4Address_raises.
      apply is_AddressValueError_ValueError. }
    intros x _. apply raises_in_bind.
    { eapply raises_in_weaken, IPv4Address_raises.
      apply is_AddressValueError_ValueError. }
    intros y _. case_match; [done|].
    eapply raises_in_weaken, range_loop_raises.
    apply is_AddressValueError_ValueError. }
  apply raises_in_bind; [|done].
  eapply raises_in_weaken, IPv4Address_raises.
  apply is_AddressValueError_ValueError.
Qed.

Lemma is_ValueError_Exception e : is_ValueError e = true -> is_Exception e = true.
Proof. by destruct e. Qed.

(** ** Strings: [in], [split] and concatenation *)

Lemma contains_app c s t :
  contains c (s +:+ t) = contains c s || contains c t.
Proof. induction s as [|a s IH]; simpl; [done|]. by destruct (Ascii.eqb a c). Qed.

Lemma string_app_sep sep t : String sep "" +:+ t = String sep t.
Proof. reflexivity. Qed.

Lemma split_nonempty sep s : split sep s <> [].
Proof.
  induction s as [|a s IH]; simpl; [done|].
  destruct (Ascii.eqb a sep); [done|]. by destruct (split sep s).
Qed.

Lemma split_no_sep sep s : contains sep s = false -> split sep s = [s].
Proof.
  induction s as [|a s IH]; simpl; [done|].
  destruct (Ascii.eqb a sep); [done|]. intros H. by rewrite IH.
Qed.

Lemma split_app_sep sep s t :
  contains sep s = false ->
  split sep (s +:+ String sep t) = s :: split sep t.
Proof.
  induction s as [|a s IH]; simpl.
  - by rewrite Ascii.eqb_refl.
  - destruct (Ascii.eqb a sep); [done|]. intros H. by rewrite IH.
Qed.

Lemma split1_app_sep sep s t :
  contains sep s = false ->
  split1 sep (s +:+ String sep t) = [s; t].
Proof.
  induction s as [|a s IH]; simpl.
  - by rewrite Ascii.eqb_refl.
  - destruct (Ascii.eqb a sep); [done|]. intros H. by rewrite IH.
Qed.

(** A character that is not the separator and occurs in [s] occurs in one
    of the pieces of [s.split(sep)]. *)
Lemma contains_split sep c s :
  contains c s = true -> c <> sep ->
  exists w, w ∈ split sep s /\ contains c w = true.
Proof.
  intros Hc Hne. induction s as [|a s IH]; simpl in *; [done|].
  destruct (Ascii.eqb a c) eqn:Hac.
  - apply Ascii.eqb_eq in Hac as ->.
    destruct (Ascii.eqb c sep) eqn:Hcs; [by apply Ascii.eqb_eq in Hcs|].
    pose proof (split_nonempty sep s). destruct (split sep s) as [|w ws]; [done|].
    exists (String c w). split; [left|]. simpl. by rewrite Ascii.eqb_refl.
  - destruct (IH Hc) as (w & Hw & Hcw).
    destruct (Ascii.eqb a sep); [exists w; split; [by right|done]|].
    destruct (split sep s) as [|w0 ws]; [by apply elem_of_nil in Hw|].
    apply elem_of_cons in Hw as [->|Hw].
    + exists (String a w0). split; [left|]. simpl. by rewrite Hac.
    + exists w. split; [by right|done].
Qed.

Lemma forall_chars_contains p c s :
  forall_chars p s = true -> p c = false -> contains c s = false.
Proof.
  intros Hs Hc. induction s as [|a s IH]; simpl in *; [done|].
  apply andb_prop in Hs as [Ha Hs].
  destruct (Ascii.eqb a c) eqn:Hac; [|by apply IH].
  apply Ascii.eqb_eq in Hac as ->. congruence.
Qed.

Lemma isdigit_contains c s :
  isdigit s = true -> isdigit_char c = false -> contains c s = false.
Proof.
  destruct s as [|a s]; [done|]. unfold isdigit. apply forall_chars_contains.
Qed.

(** ** Dotted-quad text and its numeric value *)

Lemma octet_text_ok_all : forallb octet_text_ok (seqZ 0 256) = true.
Proof. vm_compute. reflexivity. Qed.

Lemma octet_text b :
  is_octet b ->
  _parse_octet (str_of_int b) = Returns b
  /\ str_of_int b <> "" /\ isdigit (str_of_int b) = true.
Proof.
  intros Hb.
  pose proof octet_text_ok_all as Hall. rewrite forallb_forall in Hall.
  specialize (Hall b). unfold octet_text_ok in Hall.
  destruct (_parse_octet (str_of_int b)) as [b'|e].
  - assert (Hin : In b (seqZ 0 256)).
    { apply list_elem_of_In, elem_of_seqZ. unfold is_octet in Hb. lia. }
    apply Hall in Hin. apply andb_prop in Hin as [Hin Hd].
    apply andb_prop in Hin as [Hv Hne].
    apply Z.eqb_eq in Hv as ->. split; [done|]. split; [|done].
    intros Heq. rewrite Heq in Hne. done.
  - assert (Hin : In b (seqZ 0 256)).
    { apply list_elem_of_In, elem_of_seqZ. unfold is_octet in Hb. lia. }
    by apply Hall in Hin.
Qed.

Lemma to_bytes4_big_octets x :
  Forall is_octet (to_bytes4_big x).
Proof.
  unfold to_bytes4_big, is_octet.
  change 255 with (Z.ones 8).
  repeat constructor; rewrite Z.land_ones by lia; try apply Z.mod_pos_bound; lia.
Qed.

Lemma from_to_bytes4_big x :
  is_ip_int x -> from_bytes_big (to_bytes4_big x) = x.
Proof.
  unfold is_ip_int, _ALL_ONES, IPV4LENGTH, from_bytes_big, to_bytes4_big.
  intros Hx. simpl fold_left.
  change 255 with (Z.ones 8). rewrite !Z.land_ones, !Z.shiftr_div_pow2 by lia.
  change (2 ^ 32 - 1) with 4294967295 in Hx.
  change (2 ^ 24) with 16777216. change (2 ^ 16) with 65536.
  change (2 ^ 8) with 256.
  Z.div_mod_to_equations. lia.
Qed.

(** The text of an address holds digits and dots only. *)
Lemma _string_from_ip_int_no c x :
  isdigit_char c = false -> c <> "."%char ->
  contains c (_string_from_ip_int x) = false.
Proof.
  intros Hd Hdot. unfold _string_from_ip_int.
  pose proof (to_bytes4_big_octets x) as Ho. unfold to_bytes4_big in *.
  apply Forall_cons in Ho as [H3 Ho]. apply Forall_cons in Ho as [H2 Ho].
  apply Forall_cons in Ho as [H1 Ho]. apply Forall_cons in Ho as [H0 _].
  apply octet_text in H3 as (_ & _ & H3), H2 as (_ & _ & H2),
    H1 as (_ & _ & H1), H0 as (_ & _ & H0).
  assert (Hsep : contains c "." = false).
  { unfold contains. destruct (Ascii.eqb_spec "."%char c); [congruence|done]. }
  cbn [map join]. rewrite !contains_app, Hsep.
  by rewrite !(isdigit_contains c _) by done.
Qed.

(** Round trip: parsing the text of an address gives the address back. *)
Lemma IPv4Address_string_from_ip_int x :
  is_ip_int x -> IPv4Address (_string_from_ip_int x) = Returns x.
Proof.
  intros Hx. unfold IPv4Address.
  rewrite (_string_from_ip_int_no "/") by done.
  unfold _ip_int_from_string.
  pose proof (to_bytes4_big_octets x) as Ho.
  pose proof (from_to_bytes4_big x Hx) as Hv.
  unfold _string_from_ip_int. unfold to_bytes4_big in *.
  apply Forall_cons in Ho as [H3 Ho]. apply Forall_cons in Ho as [H2 Ho].
  apply Forall_cons in Ho as [H1 Ho]. apply Forall_cons in Ho as [H0 _].
  set (b3 := Z.land (x ≫ 24) 255) in *. set (b2 := Z.land (x ≫ 16) 255) in *.
  set (b1 := Z.land (x ≫ 8) 255) in *. set (b0 := Z.land x 255) in *.
  apply octet_text in H3 as (P3 & N3 & D3), H2 as (P2 & N2 & D2),
    H1 as (P1 & N1 & D1), H0 as (P0 & N0 & D0).
  cbn [map join].
  assert (Hdot : forall s, isdigit s = true -> contains "." s = false).
  { intros s Hs. by apply isdigit_contains. }
  destruct (String.eqb_spec (str_of_int b3 +:+ "." +:+ str_of_int b2 +:+ "."
              +:+ str_of_int b1 +:+ "." +:+ str_of_int b0) "") as [E|_].
  { destruct (str_of_int b3); [done|discriminate E]. }
  rewrite !(string_app_sep "."), !split_app_sep by auto.
  rewrite split_no_sep by auto.
  cbn [length Z.of_nat Pos.of_succ_nat Pos.succ Z.eqb Pos.eqb negb].
  cbn [mapM]. rewrite P3, P2, P1, P0.
  cbn [mbind mret outcome_bind outcome_ret fmap outcome_fmap try_except].
  by rewrite Hv.
Qed.

(** ** [mapM] over [outcome] *)

Lemma mapM_Returns_inv {A B} (f : A -> outcome B) l k :
  mapM f l = Returns k -> Forall2 (fun a b => f a = Returns b) l k.
Proof.
  revert k. induction l as [|a l IH]; intros k; simpl.
  - intros [= <-]. constructor.
  - destruct (f a) as [b|e] eqn:Hfa; simpl; [|done].
    destruct (mapM f l) as [bs|e] eqn:Hl; simpl; [|done].
    intros [= <-]. constructor; auto.
Qed.

Lemma mapM_Returns_id (f : Z -> outcome Z) l :
  Forall (fun a => f a = Returns a) l -> mapM f l = Returns l.
Proof.
  induction 1 as [|a l Ha _ IH]; simpl; [done|]. by rewrite Ha, IH.
Qed.

(** ** Parsed addresses are 32-bit values *)

Lemma digits_value_nonneg s acc :
  isascii s = true -> forall_chars isdigit_char s = true ->
  0 <= acc -> 0 <= digits_value acc s.
Proof.
  revert acc. induction s as [|a s IH]; intros acc Ha Hd Hacc; simpl in *; [done|].
  apply andb_prop in Ha as [Ha1 Ha], Hd as [Hd1 Hd].
  apply IH; [done..|].
  unfold isdigit_char in Hd1. lia.
Qed.

Lemma _parse_octet_is_octet s b : _parse_octet s = Returns b -> is_octet b.
Proof.
  unfold _parse_octet, int_of_digits, is_octet.
  destruct (String.eqb s ""); [done|].
  destruct (isascii s && isdigit s) eqn:Hd; [|done]. simpl.
  destruct (3 <? len s); [done|].
  match goal with |- context [if ?c then _ else _] => destruct c end; [done|].
  destruct (int_max_str_digits <? len s); [done|]. simpl.
  destruct (255 <? digits_value 0 s) eqn:Hle; [done|].
  intros [= <-]. apply andb_prop in Hd as [Ha Hd].
  split; [|lia]. apply digits_value_nonneg; [done| |lia].
  by destruct s.
Qed.

Lemma _ip_int_from_string_is_ip_int s x :
  _ip_int_from_string s = Returns x -> is_ip_int x.
Proof.
  unfold _ip_int_from_string.
  destruct (String.eqb s ""); [done|].
  destruct (negb _) eqn:Hlen; [done|].
  apply negb_false_iff, Z.eqb_eq in Hlen.
  destruct (mapM _parse_octet (split "." s)) as [bs|e] eqn:Hm; simpl;
    [|by destruct (is_ValueError e)].
  intros [= <-]. apply mapM_Returns_inv in Hm.
  pose proof (Forall2_length _ _ _ Hm) as Hl.
  assert (Hbs : Forall is_octet bs).
  { clear Hl Hlen. induction Hm; constructor; eauto using _parse_octet_is_octet. }
  destruct bs as [|b3 [|b2 [|b1 [|b0 [|? ?]]]]]; simpl in Hl; try lia.
  apply Forall_cons in Hbs as [H3 Hbs]. apply Forall_cons in Hbs as [H2 Hbs].
  apply Forall_cons in Hbs as [H1 Hbs]. apply Forall_cons in Hbs as [H0 _].
  unfold is_ip_int, _ALL_ONES, IPV4LENGTH, from_bytes_big, is_octet in *.
  simpl. lia.
Qed.

Lemma IPv4Address_is_ip_int s x : IPv4Address s = Returns x -> is_ip_int x.
Proof.
  unfold IPv4Address. destruct (contains "/" s); [done|].
  apply _ip_int_from_string_is_ip_int.
Qed.

Lemma IPv4Address_no_slash s x : IPv4Address s = Returns x -> contains "/" s = false.
Proof. unfold IPv4Address. by destruct (contains "/" s). Qed.

Lemma IPv4Address_of_int_Returns x : is_ip_int x -> IPv4Address_of_int x = Returns x.
Proof.
  unfold is_ip_int, IPv4Address_of_int, _check_int_address. intros Hx.
  destruct (x <? 0) eqn:H1; [lia|]. destruct (_ALL_ONES <? x) eqn:H2; [lia|]. done.
Qed.

Lemma IPv4Address_of_int_inv x y :
  IPv4Address_of_int x = Returns y -> y = x /\ is_ip_int x.
Proof.
  unfold is_ip_int, IPv4Address_of_int, _check_int_address.
  destruct (x <? 0) eqn:H1; [done|]. destruct (_ALL_ONES <? x) eqn:H2; [done|].
  simpl. intros [= <-]. lia.
Qed.

(** ** The range loop *)

(** Below the top of the address space the loop appends every address from
    [current] to [end_ip]. *)
Lemma range_loop_below_top current end_ip ips :
  0 <= current -> end_ip < _ALL_ONES ->
  range_loop current end_ip ips
  = Returns (ips ++ map _string_from_ip_int (seqZ current (end_ip + 1 - current)))%list.
Proof.
  funelim (range_loop current end_ip ips); intros Hc He;
    lazymatch goal with
    | Hadd : IPv4Address_add _ _ = Returns _, IH : _ -> _ -> _ = _ |- _ =>
        destruct (IPv4Address_of_int_inv _ _ Hadd) as [Hn _];
        rewrite IH by lia; rewrite Hn; rewrite (seqZ_cons current) by lia;
        rewrite <- app_assoc; simpl;
        replace (Z.pred (end_ip + 1 - current)) with (end_ip + 1 - (current + 1))
          by lia;
        done
    | Hadd : IPv4Address_add _ _ = Raises _ |- _ =>
        pose proof Hadd as Hadd';
        unfold IPv4Address_add in Hadd';
        rewrite IPv4Address_of_int_Returns in Hadd' by (unfold is_ip_int; lia);
        done
    | _ => rewrite seqZ_nil by lia; simpl; by rewrite app_nil_r
    end.
Qed.

(** When [end_ip] is the last address, the step past it raises. *)
Lemma range_loop_at_top current ips :
  current <= _ALL_ONES ->
  range_loop current _ALL_ONES ips = Raises AddressValueError.
Proof.
  remember _ALL_ONES as end_ip eqn:Hend. revert Hend.
  funelim (range_loop current end_ip ips); intros Hend Hc;
    lazymatch goal with
    | Hadd : IPv4Address_add _ _ = Returns _, IH : _ -> _ -> _ = _ |- _ =>
        destruct (IPv4Address_of_int_inv _ _ Hadd) as [Hn [_ Hle]];
        apply IH; [done|lia]
    | Hadd : IPv4Address_add ?c 1 = Raises ?e |- _ =>
        pose proof (IPv4Address_of_int_raises (c + 1)) as Hr;
        pose proof Hadd as Hadd';
        unfold IPv4Address_add in Hadd'; rewrite Hadd' in Hr;
        by destruct e
    | _ => lia
    end.
Qed.

(** ** Netmasks and network arithmetic *)

Lemma _ip_int_from_prefix_bits p i :
  is_prefixlen p -> 0 <= i ->
  Z.testbit (_ip_int_from_prefix p) i = (32 - p <=? i) && (i <? 32).
Proof.
  unfold is_prefixlen, _max_prefixlen, IPV4LENGTH, _ip_int_from_prefix.
  intros Hp Hi. change _ALL_ONES with (Z.ones 32).
  rewrite Z.lxor_spec, Z.shiftr_spec, !Z.testbit_ones_nonneg by lia.
  destruct (Z.ltb_spec i 32), (Z.ltb_spec (i + p) 32), (Z.leb_spec (32 - p) i);
    simpl; try done; lia.
Qed.

(** Masking clears the host bits: the network address is the address
    rounded down to a multiple of the network size. *)
Lemma land_prefix_mask x p :
  is_ip_int x -> is_prefixlen p ->
  Z.land x (_ip_int_from_prefix p) = 2 ^ (32 - p) * (x / 2 ^ (32 - p)).
Proof.
  intros Hx Hp. apply Z.bits_inj'. intros i Hi.
  rewrite Z.land_spec, _ip_int_from_prefix_bits by done.
  unfold is_prefixlen, _max_prefixlen, IPV4LENGTH in Hp.
  unfold is_ip_int, _ALL_ONES, IPV4LENGTH in Hx.
  rewrite Z.mul_comm, <- Z.shiftl_mul_pow2, <- Z.shiftr_div_pow2 by lia.
  rewrite Z.shiftl_spec by lia.
  destruct (Z.leb_spec (32 - p) i); simpl.
  - rewrite Z.shiftr_spec by lia. replace (i - (32 - p) + (32 - p)) with i by lia.
    destruct (Z.ltb_spec i 32); [by rewrite andb_true_r|].
    rewrite andb_false_r. symmetry.
    destruct (Z.eq_dec x 0) as [->|Hne]; [apply Z.bits_0|].
    apply Z.bits_above_log2; [lia|].
    assert (Z.log2 x < 32); [|lia]. apply Z.log2_lt_pow2; lia.
  - rewrite andb_false_r. symmetry. apply Z.testbit_neg_r. lia.
Qed.

Lemma prefix_mask_ok_all : forallb prefix_mask_ok (seqZ 0 33) = true.
Proof. vm_compute. reflexivity. Qed.

Lemma prefix_mask_values p :
  is_prefixlen p ->
  _ip_int_from_prefix p = 2 ^ 32 - 2 ^ (32 - p)
  /\ Z.lxor (_ip_int_from_prefix p) _ALL_ONES = 2 ^ (32 - p) - 1.
Proof.
  unfold is_prefixlen, _max_prefixlen, IPV4LENGTH. intros Hp.
  pose proof prefix_mask_ok_all as Hall. rewrite forallb_forall in Hall.
  assert (Hin : In p (seqZ 0 33)) by (apply list_elem_of_In, elem_of_seqZ; lia).
  apply Hall in Hin. unfold prefix_mask_ok in Hin.
  apply andb_prop in Hin as [H1 H2]. split; by apply Z.eqb_eq.
Qed.

Lemma prefix_mask_is_ip_int p : is_prefixlen p -> is_ip_int (_ip_int_from_prefix p).
Proof.
  intros Hp. destruct (prefix_mask_values p Hp) as [-> _].
  unfold is_prefixlen, _max_prefixlen, IPV4LENGTH in Hp.
  unfold is_ip_int, _ALL_ONES, IPV4LENGTH.
  assert (0 < 2 ^ (32 - p)) by (apply Z.pow_pos_nonneg; lia).
  assert (2 ^ (32 - p) <= 2 ^ 32) by (apply Z.pow_le_mono_r; lia).
  lia.
Qed.

Lemma network_bounds x p :
  is_ip_int x -> is_prefixlen p ->
  let net := Z.land x (_ip_int_from_prefix p) in
  0 <= net /\ net <= x /\ x < net + network_size p
  /\ net + network_size p - 1 <= _ALL_ONES
  /\ Z.lor net (Z.lxor (_ip_int_from_prefix p) _ALL_ONES) = net + network_size p - 1.
Proof.
  intros Hx Hp net. subst net. rewrite land_prefix_mask by done.
  destruct (prefix_mask_values p Hp) as [_ ->].
  unfold is_prefixlen, _max_prefixlen in Hp.
  unfold is_ip_int, _ALL_ONES in Hx. unfold network_size, _ALL_ONES.
  unfold IPV4LENGTH in *.
  set (k := 32 - p) in *.
  assert (Hk : 0 < 2 ^ k) by (apply Z.pow_pos_nonneg; lia).
  assert (Hpow : 2 ^ 32 = 2 ^ k * 2 ^ p).
  { rewrite <- Z.pow_add_r by lia. f_equal. lia. }
  pose proof (Z.div_mod x (2 ^ k) ltac:(lia)) as Hdm.
  pose proof (Z.mod_pos_bound x (2 ^ k) Hk) as Hm.
  assert (Hq : x / 2 ^ k < 2 ^ p).
  { apply Z.div_lt_upper_bound; lia. }
  assert (Hq0 : 0 <= x / 2 ^ k) by (apply Z.div_pos; lia).
  repeat split; try nia.
  pose proof (Z.add_lor_land (2 ^ k * (x / 2 ^ k)) (Z.ones k)) as Hl.
  rewrite Z.land_ones in Hl by lia.
  rewrite (Z.mul_comm (2 ^ k)), Z.mod_mul in Hl by lia.
  rewrite Z.ones_equiv in Hl. rewrite (Z.mul_comm (2 ^ k)).
  replace (Z.pred (2 ^ k)) with (2 ^ k - 1) in Hl by lia. lia.
Qed.

(** ** What a successfully built network looks like *)

Lemma _prefix_from_prefix_string_range s p :
  _prefix_from_prefix_string s = Returns p -> is_prefixlen p.
Proof.
  unfold _prefix_from_prefix_string, int_of_digits, is_prefixlen.
  destruct (negb _); [done|].
  destruct (int_max_str_digits <? len s); simpl; [done|].
  destruct (negb _) eqn:Hr; [done|]. intros [= <-].
  apply negb_false_iff in Hr. lia.
Qed.

Lemma _count_righthand_zero_bits_range n bits :
  0 <= bits -> 0 <= _count_righthand_zero_bits n bits <= bits.
Proof.
  unfold _count_righthand_zero_bits, bit_length. intros Hb.
  destruct (n =? 0); [lia|].
  destruct (_ =? 0); [lia|].
  pose proof (Z.log2_nonneg (Z.land (Z.lnot n) (n - 1))). lia.
Qed.

Lemma _prefix_from_ip_int_range n p :
  _prefix_from_ip_int n = Returns p -> is_prefixlen p.
Proof.
  unfold _prefix_from_ip_int, is_prefixlen.
  destruct (negb _); [done|]. intros [= <-].
  pose proof (_count_righthand_zero_bits_range n _max_prefixlen ltac:(done)). lia.
Qed.

Lemma _prefix_from_ip_string_range s p :
  _prefix_from_ip_string s = Returns p -> is_prefixlen p.
Proof.
  unfold _prefix_from_ip_string.
  destruct (_ip_int_from_string s) as [n|e]; simpl; [|by destruct e].
  destruct (_prefix_from_ip_int n) as [q|e] eqn:H1;
    [intros [= <-]; by eapply _prefix_from_ip_int_range|].
  destruct (is_ValueError e); [|done].
  destruct (_prefix_from_ip_int (Z.lxor n _ALL_ONES)) as [q|e'] eqn:H2; simpl;
    [intros [= <-]; by eapply _prefix_from_ip_int_range|].
  by destruct (is_ValueError e').
Qed.

Lemma _make_netmask_inv arg nm p :
  _make_netmask arg = Returns (nm, p) ->
  is_prefixlen p /\ nm = _ip_int_from_prefix p.
Proof.
  unfold _make_netmask.
  match goal with |- (?c ≫= _) = _ -> _ => destruct c as [q|e] eqn:Hq end;
    simpl; [|done].
  assert (Hrange : is_prefixlen q).
  { destruct arg as [s|n].
    - destruct (_prefix_from_prefix_string s) as [q'|e] eqn:H1; simpl in Hq.
      + injection Hq as <-. by eapply _prefix_from_prefix_string_range.
      + destruct e; simpl in Hq; try done.
        by eapply _prefix_from_ip_string_range.
    - destruct (negb _) eqn:Hr; [done|]. injection Hq as <-.
      apply negb_false_iff in Hr. unfold is_prefixlen. lia. }
  rewrite IPv4Address_of_int_Returns by by apply prefix_mask_is_ip_int.
  simpl. by intros [= <- <-].
Qed.

Lemma IPv4Network_inv s nw :
  IPv4Network s false = Returns nw ->
  exists a marg x p,
    _split_addr_prefix s = Returns (a, marg)
    /\ IPv4Address a = Returns x
    /\ _make_netmask marg = Returns (_ip_int_from_prefix p, p)
    /\ is_prefixlen p
    /\ nw = {| network_address := Z.land x (_ip_int_from_prefix p);
               netmask := _ip_int_from_prefix p;
               _prefixlen := p; addr := a |}.
Proof.
  unfold IPv4Network.
  destruct (_split_addr_prefix s) as [[a marg]|e]; simpl; [|done].
  destruct (IPv4Address a) as [x|e] eqn:Hx; simpl; [|done].
  destruct (_make_netmask marg) as [[nm p]|e] eqn:Hm; simpl; [|done].
  destruct (_make_netmask_inv _ _ _ Hm) as [Hp ->].
  pose proof (IPv4Address_is_ip_int _ _ Hx) as Hxr.
  destruct (network_bounds x p Hxr Hp) as (Hn0 & Hn1 & _).
  intros H. exists a, marg, x, p. do 4 (split; [done|]).
  destruct (negb _) eqn:Hneq.
  - rewrite IPv4Address_of_int_Returns in H by (unfold is_ip_int in *; lia).
    simpl in H. by injection H as <-.
  - apply negb_false_iff, Z.eqb_eq in Hneq. simpl in H. injection H as <-.
    by rewrite Hneq.
Qed.

(** Building the network from an address text and a mask text. *)
Lemma IPv4Network_cidr a m x nm p :
  IPv4Address a = Returns x ->
  contains "/" m = false ->
  _make_netmask (MaskStr m) = Returns (nm, p) ->
  IPv4Network (a +:+ "/" +:+ m) false
  = Returns {| network_address := Z.land x nm; netmask := nm;
               _prefixlen := p; addr := a |}.
Proof.
  intros Hx Hm Hnm. unfold IPv4Network, _split_addr_prefix, _split_optional_netmask.
  rewrite (string_app_sep "/"), split_app_sep by by eapply IPv4Address_no_slash.
  rewrite split_no_sep by done. simpl. rewrite Hx. simpl. rewrite Hnm. simpl.
  destruct (_make_netmask_inv _ _ _ Hnm) as [Hp ->].
  pose proof (IPv4Address_is_ip_int _ _ Hx) as Hxr.
  destruct (network_bounds x p Hxr Hp) as (Hn0 & Hn1 & _).
  destruct (negb _) eqn:Hneq.
  - rewrite IPv4Address_of_int_Returns by (unfold is_ip_int in *; lia). done.
  - apply negb_false_iff, Z.eqb_eq in Hneq. simpl. by rewrite Hneq.
Qed.

Lemma hosts_spec a x p :
  IPv4Address a = Returns x -> is_prefixlen p ->
  let net := Z.land x (_ip_int_from_prefix p) in
  broadcast_address {| network_address := net; netmask := _ip_int_from_prefix p;
                       _prefixlen := p; addr := a |}
  = Returns (net + network_size p - 1)
  /\ hosts {| network_address := net; netmask := _ip_int_from_prefix p;
              _prefixlen := p; addr := a |}
     = Returns (hosts_of net p).
Proof.
  intros Hx Hp net.
  pose proof (IPv4Address_is_ip_int _ _ Hx) as Hxr.
  destruct (network_bounds x p Hxr Hp) as (Hn0 & Hn1 & Hn2 & Hn3 & Hlor).
  fold net in Hn0, Hn1, Hn2, Hn3, Hlor.
  destruct (prefix_mask_values p Hp) as [_ Hhm].
  assert (Hsz : 0 < network_size p).
  { unfold network_size. apply Z.pow_pos_nonneg; [lia|].
    unfold is_prefixlen, _max_prefixlen in Hp. lia. }
  assert (Hb : broadcast_address
                 {| network_address := net; netmask := _ip_int_from_prefix p;
                    _prefixlen := p; addr := a |}
               = Returns (net + network_size p - 1)).
  { unfold broadcast_address, hostmask. simpl.
    rewrite IPv4Address_of_int_Returns.
    2:{ rewrite Hhm. unfold is_ip_int, network_size, IPV4LENGTH in *. lia. }
    simpl. rewrite Hlor.
    apply IPv4Address_of_int_Returns. unfold is_ip_int. lia. }
  split; [done|].
  assert (Hall : forall a0 n, net <= a0 -> a0 + n <= net + network_size p ->
            mapM IPv4Address_of_int (seqZ a0 n) = Returns (seqZ a0 n)).
  { intros a0 n H1 H2. apply mapM_Returns_id, Forall_forall.
    intros y Hy%elem_of_seqZ. apply IPv4Address_of_int_Returns.
    unfold is_ip_int. lia. }
  unfold hosts, hosts_of, __iter__, _BaseNetwork_hosts, range. rewrite Hb.
  unfold _max_prefixlen, IPV4LENGTH. simpl _prefixlen. simpl network_address.
  simpl addr. change (32 - 1) with 31.
  destruct (Z.eqb_spec p 31) as [->|H31].
  - simpl. change (network_size 31) with 2 in *.
    rewrite Hall by lia.
    replace (net + 2 - 1 + 1 - net) with 2 by lia.
    by rewrite 2!seqZ_cons, seqZ_nil by lia.
  - destruct (Z.eqb_spec p 32) as [->|H32].
    + rewrite Hx. simpl. change (network_size 32) with 1 in *.
      do 2 f_equal. lia.
    + simpl. rewrite Hall by lia. do 2 f_equal. lia.
Qed.

(** ** Text that cannot be an address or a mask *)

Lemma mapM_raises_elem {A B} (f : A -> outcome B) l w :
  w ∈ l -> is_Returns (f w) = false -> is_Returns (mapM f l) = false.
Proof.
  intros Hw Hf. destruct (mapM f l) as [k|e] eqn:Hm; [|done].
  apply mapM_Returns_inv in Hm.
  apply list_elem_of_lookup in Hw as [i Hi].
  destruct (Forall2_lookup_l _ _ _ _ _ Hm Hi) as (b & _ & Hb).
  by rewrite Hb in Hf.
Qed.

(** A character that is neither a digit nor a dot spoils an address. *)
Lemma _ip_int_from_string_bad_char c s :
  isdigit_char c = false -> c <> "."%char -> contains c s = true ->
  is_Returns (_ip_int_from_string s) = false.
Proof.
  intros Hd Hdot Hc. unfold _ip_int_from_string.
  destruct (String.eqb s ""); [done|]. destruct (negb _); [done|].
  destruct (contains_split "." c s Hc Hdot) as (w & Hw & Hcw).
  assert (Hpw : is_Returns (_parse_octet w) = false).
  { unfold _parse_octet. destruct (String.eqb w ""); [done|].
    destruct (isdigit w) eqn:Hdw.
    - by rewrite (isdigit_contains c w) in Hcw.
    - by rewrite andb_false_r. }
  pose proof (mapM_raises_elem _parse_octet _ w Hw Hpw) as Hm.
  destruct (mapM _parse_octet (split "." s)) as [k|e]; [done|]. simpl.
  by destruct (is_ValueError e).
Qed.

Lemma IPv4Address_bad_char c s :
  isdigit_char c = false -> c <> "."%char -> contains c s = true ->
  is_Returns (IPv4Address s) = false.
Proof.
  intros. unfold IPv4Address. destruct (contains "/" s); [done|].
  by eapply _ip_int_from_string_bad_char.
Qed.

Lemma _make_netmask_bad_char c m :
  isdigit_char c = false -> c <> "."%char -> contains c m = true ->
  is_Returns (_make_netmask (MaskStr m)) = false.
Proof.
  intros Hd Hdot Hc. unfold _make_netmask.
  assert (H1 : _prefix_from_prefix_string m = Raises NetmaskValueError).
  { unfold _prefix_from_prefix_string. destruct (isdigit m) eqn:Hdm.
    - by rewrite (isdigit_contains c m) in Hc.
    - by rewrite andb_false_r. }
  rewrite H1. simpl.
  pose proof (_ip_int_from_string_bad_char c m Hd Hdot Hc) as H2.
  pose proof (_ip_int_from_string_raises m) as H3.
  unfold _prefix_from_ip_string.
  destruct (_ip_int_from_string m) as [n|e]; [done|].
  by destruct e.
Qed.

Lemma _make_netmask_no_slash m nm p :
  _make_netmask (MaskStr m) = Returns (nm, p) -> contains "/" m = false.
Proof.
  intros H. destruct (contains "/" m) eqn:Hc; [|done].
  pose proof (_make_netmask_bad_char "/" m eq_refl ltac:(done) Hc) as Hr.
  by rewrite H in Hr.
Qed.

(** A text with both a slash and a dash is no network. *)
Lemma IPv4Network_with_dash s strict :
  contains "-" s = true -> is_Returns (IPv4Network s strict) = false.
Proof.
  intros Hc. unfold IPv4Network, _split_addr_prefix, _split_optional_netmask.
  destruct (contains_split "/" "-" s Hc ltac:(done)) as (w & Hw & Hcw).
  destruct (2 <? Z.of_nat (length (split "/" s))); [done|]. simpl.
  destruct (split "/" s) as [|a [|m [|? ?]]]; try done.
  - apply list_elem_of_singleton in Hw as ->. simpl.
    pose proof (IPv4Address_bad_char "-" a eq_refl ltac:(done) Hcw) as Ha.
    by destruct (IPv4Address a).
  - simpl. apply elem_of_cons in Hw as [->|Hw].
    + pose proof (IPv4Address_bad_char "-" a eq_refl ltac:(done) Hcw) as Ha.
      by destruct (IPv4Address a).
    + apply list_elem_of_singleton in Hw as ->.
      destruct (IPv4Address a); [|done]. simpl.
      pose proof (_make_netmask_bad_char "-" m eq_refl ltac:(done) Hcw) as Hm.
      by destruct (_make_netmask (MaskStr m)).
Qed.

(** ** [expand_ip_range]: the three branches *)

Lemma expand_ip_range_raising s e :
  expand_ip_range_try s = Raises e ->
  expand_ip_range s = (Returns [], [ErrorParsingRange s e]).
Proof.
  intros H. unfold expand_ip_range. rewrite H.
  pose proof (expand_ip_range_try_raises s) as Hr. rewrite H in Hr. simpl in Hr.
  by rewrite (is_ValueError_Exception e Hr).
Qed.

Lemma expand_ip_range_try_cidr s :
  contains "/" s = true ->
  expand_ip_range_try s
  = (network ← IPv4Network s false; hs ← hosts network;
     Returns (map _string_from_ip_int hs)).
Proof. intros H. unfold expand_ip_range_try. by rewrite H. Qed.

Lemma expand_ip_range_try_range a b :
  contains "-" a = false -> contains "/" (a +:+ "-" +:+ b) = false ->
  expand_ip_range_try (a +:+ "-" +:+ b)
  = (start_ip ← IPv4Address (strip a); end_ip ← IPv4Address (strip b);
     if end_ip <? start_ip then Raises ValueError
     else range_loop start_ip end_ip []).
Proof.
  intros Ha Hs. unfold expand_ip_range_try. rewrite Hs.
  rewrite contains_app. replace (contains "-" ("-" +:+ b)) with true by done.
  rewrite orb_true_r.
  rewrite (string_app_sep "-"), split1_app_sep by done. reflexivity.
Qed.

Lemma numeric_map_string l :
  Forall is_ip_int l -> numeric (map _string_from_ip_int l) = Returns l.
Proof.
  unfold numeric. induction 1 as [|x l Hx _ IH]; [done|].
  cbn [map mapM]. rewrite IPv4Address_string_from_ip_int by done.
  cbn [mbind outcome_bind]. by rewrite IH.
Qed.

(** A valid range that ends below 255.255.255.255 expands to every address
    from its start to its end. *)
Lemma expand_range_below_top a b start_ip end_ip :
  contains "-" a = false -> contains "/" (a +:+ "-" +:+ b) = false ->
  IPv4Address (strip a) = Returns start_ip ->
  IPv4Address (strip b) = Returns end_ip ->
  start_ip <= end_ip -> end_ip < _ALL_ONES ->
  expand_ip_range (a +:+ "-" +:+ b)
  = (Returns (map _string_from_ip_int (seqZ start_ip (end_ip - start_ip + 1))), []).
Proof.
  intros Ha Hs Hst Hen Hle Htop. unfold expand_ip_range.
  rewrite expand_ip_range_try_range by done. rewrite Hst, Hen. simpl.
  destruct (Z.ltb_spec end_ip start_ip); [lia|].
  pose proof (IPv4Address_is_ip_int _ _ Hst) as [H0 _].
  rewrite range_loop_below_top by done. simpl.
  by replace (end_ip + 1 - start_ip) with (end_ip - start_ip + 1) by lia.
Qed.

(** A valid range that ends at 255.255.255.255 expands to nothing: the
    loop raises when it steps past the last address. *)
Lemma expand_range_at_top a b start_ip :
  contains "-" a = false -> contains "/" (a +:+ "-" +:+ b) = false ->
  IPv4Address (strip a) = Returns start_ip ->
  IPv4Address (strip b) = Returns _ALL_ONES ->
  expand_ip_range (a +:+ "-" +:+ b)
  = (Returns [], [ErrorParsingRange (a +:+ "-" +:+ b) AddressValueError]).
Proof.
  intros Ha Hs Hst Hen. apply expand_ip_range_raising.
  rewrite expand_ip_range_try_range by done. rewrite Hst, Hen. simpl.
  pose proof (IPv4Address_is_ip_int _ _ Hst) as [_ H1].
  destruct (Z.ltb_spec _ALL_ONES start_ip); [lia|].
  by apply range_loop_at_top.
Qed.

(** ** Claims about [expand_ip_range] *)

(** C9.  [expand_ip_range] is total: for every input string the call
    returns a list of strings and never lets an exception reach its caller
    (the recursion of the range loop is well founded, and every exception
    the body can raise is caught by [except Exception]); whenever the body
    fails, the returned list is empty and one error line was printed. *)
Theorem expand_ip_range_total (ip_range : string) :
  exists ips out,
    expand_ip_range ip_range = (Returns ips, out)
    /\ (forall e, expand_ip_range_try ip_range = Raises e ->
          ips = [] /\ out = [ErrorParsingRange ip_range e])
    /\ (forall l, expand_ip_range_try ip_range = Returns l ->
          ips = l /\ out = []).
Proof.
  destruct (expand_ip_range_try ip_range) as [l|e] eqn:Htry.
  - exists l, []. unfold expand_ip_range. rewrite Htry.
    split; [done|]. split; [done|]. by intros ? [= <-].
  - exists [], [ErrorParsingRange ip_range e].
    rewrite (expand_ip_range_raising _ _ Htry).
    split; [done|]. split; [|done]. by intros ? [= <-].
Qed.

(** C4, as the code has it.  For a valid CIDR text with prefix length at
    most 30, [expand_ip_range] returns the texts of exactly the addresses
    strictly between the network address and the broadcast address, in
    ascending numeric order, so 254 of them for a /24.  For a /31 it
    returns both addresses of the network, which are its network and its
    broadcast address, and for a /32 the single address. *)
Theorem expand_cidr_hosts (s : string) (nw : IPv4Network_obj) :
  contains "/" s = true ->
  IPv4Network s false = Returns nw ->
  let net := network_address nw in
  let p := _prefixlen nw in
  let bcast := net + network_size p - 1 in
  is_prefixlen p
  /\ broadcast_address nw = Returns bcast
  /\ (p <= 30 ->
      expand_ip_range s
      = (Returns (map _string_from_ip_int (seqZ (net + 1) (bcast - net - 1))), [])
      /\ numeric (map _string_from_ip_int (seqZ (net + 1) (bcast - net - 1)))
         = Returns (seqZ (net + 1) (bcast - net - 1)))
  /\ (p = 24 ->
      exists ips, expand_ip_range s = (Returns ips, []) /\ length ips = 254%nat)
  /\ (p = 31 ->
      expand_ip_range s
      = (Returns [_string_from_ip_int net; _string_from_ip_int bcast], []))
  /\ (p = 32 ->
      expand_ip_range s = (Returns [_string_from_ip_int net], [])).
Proof.
  intros Hs Hnw net p bcast.
  destruct (IPv4Network_inv _ _ Hnw) as (a & marg & x & q & _ & Hx & _ & Hq & ->).
  simpl in net, p. subst p.
  destruct (hosts_spec a x q Hx Hq) as [Hb Hh]. fold net in Hb, Hh.
  pose proof (IPv4Address_is_ip_int _ _ Hx) as Hxr.
  destruct (network_bounds x q Hxr Hq) as (Hn0 & Hn1 & Hn2 & Hn3 & _).
  fold net in Hn0, Hn1, Hn2, Hn3.
  assert (Hexp : expand_ip_range s
                 = (Returns (map _string_from_ip_int (hosts_of net q)), [])).
  { unfold expand_ip_range. rewrite expand_ip_range_try_cidr by done.
    rewrite Hnw. cbn [mbind outcome_bind]. fold net. rewrite Hh. done. }
  split; [done|]. split; [done|].
  assert (H30 : q <= 30 -> hosts_of net q = seqZ (net + 1) (bcast - net - 1)).
  { intros Hle. unfold hosts_of.
    destruct (Z.eqb_spec q 31); [lia|]. destruct (Z.eqb_spec q 32); [lia|].
    f_equal. unfold bcast. lia. }
  split; [|split; [|split]].
  - intros Hle. rewrite Hexp, H30 by done. split; [done|].
    apply numeric_map_string, Forall_forall. intros y Hy%elem_of_seqZ.
    unfold is_ip_int, bcast in *. lia.
  - intros ->. eexists. split; [exact Hexp|].
    rewrite length_map, H30 by lia. rewrite length_seqZ.
    unfold bcast. change (network_size 24) with 256. lia.
  - intros ->. rewrite Hexp. unfold hosts_of, bcast. simpl.
    change (network_size 31) with 2.
    by replace (net + 2 - 1) with (net + 1) by lia.
  - intros ->. rewrite Hexp. done.
Qed.

Lemma expand_cidr_hosts_witness :
  contains "/" "192.168.1.77/24" = true
  /\ IPv4Network "192.168.1.77/24" false
     = Returns {| network_address := 3232235776; netmask := 4294967040;
                  _prefixlen := 24; addr := "192.168.1.77" |}
  /\ exists ips, expand_ip_range "192.168.1.77/24" = (Returns ips, [])
                 /\ length ips = 254%nat.
Proof.
  split; [reflexivity|]. split; [vm_compute; reflexivity|].
  refine (proj1 (proj2 (proj2 (proj2
    (expand_cidr_hosts "192.168.1.77/24"
       {| network_address := 3232235776; netmask := 4294967040;
          _prefixlen := 24; addr := "192.168.1.77" |} _ _)))) _).
  - reflexivity.
  - vm_compute; reflexivity.
  - reflexivity.
Defined.

(** C4 as stated fails for a /31: the result holds the network address and
    the broadcast address of 10.0.0.0/31. *)
Lemma expand_cidr_slash31_keeps_network_and_broadcast :
  exists nw bcast,
    IPv4Network "10.0.0.0/31" false = Returns nw
    /\ broadcast_address nw = Returns bcast
    /\ expand_ip_range "10.0.0.0/31"
       = (Returns [_string_from_ip_int (network_address nw);
                   _string_from_ip_int bcast], []).
Proof.
  exists {| network_address := 167772160; netmask := 4294967294;
            _prefixlen := 31; addr := "10.0.0.0" |}, 167772161.
  split; [vm_compute; reflexivity|]. split; vm_compute; reflexivity.
Qed.

(** C5, at the top of the address space.  The range
    255.255.255.254-255.255.255.255 is valid and ascending, and the call
    returns no address: [current += 1] raises on the last address and the
    handler turns that into the empty list. *)
Theorem expand_range_to_last_address :
  IPv4Address (strip "255.255.255.254") = Returns 4294967294
  /\ IPv4Address (strip "255.255.255.255") = Returns 4294967295
  /\ expand_ip_range "255.255.255.254-255.255.255.255"
     = (Returns [],
        [ErrorParsingRange "255.255.255.254-255.255.255.255" AddressValueError]).
Proof. split; [|split]; vm_compute; reflexivity. Qed.

(** C6, as the code has it.  For a range text [a-b] in which an endpoint
    is not an address, or in which the start exceeds the end, the call
    does not raise: it prints one error line and returns the empty
    list. *)
Theorem expand_bad_range_returns_empty (a b : string) :
  contains "-" a = false ->
  (is_Returns (IPv4Address (strip a)) = false
   \/ is_Returns (IPv4Address (strip b)) = false
   \/ exists start_ip end_ip,
        IPv4Address (strip a) = Returns start_ip
        /\ IPv4Address (strip b) = Returns end_ip
        /\ end_ip < start_ip) ->
  exists e,
    expand_ip_range (a +:+ "-" +:+ b)
    = (Returns [], [ErrorParsingRange (a +:+ "-" +:+ b) e]).
Proof.
  intros Ha Hbad.
  assert (Hdash : contains "-" (a +:+ "-" +:+ b) = true).
  { rewrite contains_app. replace (contains "-" ("-" +:+ b)) with true by done.
    apply orb_true_r. }
  assert (Hr : is_Returns (expand_ip_range_try (a +:+ "-" +:+ b)) = false).
  { destruct (contains "/" (a +:+ "-" +:+ b)) eqn:Hs.
    - rewrite expand_ip_range_try_cidr by done.
      pose proof (IPv4Network_with_dash _ false Hdash) as Hn.
      by destruct (IPv4Network (a +:+ "-" +:+ b) false).
    - rewrite expand_ip_range_try_range by done.
      destruct Hbad as [H|[H|(x & y & Hx & Hy & Hlt)]].
      + by destruct (IPv4Address (strip a)).
      + destruct (IPv4Address (strip a)); [|done]. cbn [mbind outcome_bind].
        by destruct (IPv4Address (strip b)).
      + rewrite Hx, Hy. cbn [mbind outcome_bind].
        destruct (Z.ltb_spec y x); [done|lia]. }
  destruct (expand_ip_range_try (a +:+ "-" +:+ b)) as [l|e] eqn:Htry; [done|].
  exists e. by apply expand_ip_range_raising.
Qed.

Lemma expand_bad_range_returns_empty_witness :
  contains "-" "10.0.0.5" = false
  /\ (exists start_ip end_ip,
        IPv4Address (strip "10.0.0.5") = Returns start_ip
        /\ IPv4Address (strip "10.0.0.1") = Returns end_ip
        /\ end_ip < start_ip)
  /\ exists e,
       expand_ip_range ("10.0.0.5" +:+ "-" +:+ "10.0.0.1")
       = (Returns [], [ErrorParsingRange ("10.0.0.5" +:+ "-" +:+ "10.0.0.1") e]).
Proof.
  assert (H : exists start_ip end_ip,
        IPv4Address (strip "10.0.0.5") = Returns start_ip
        /\ IPv4Address (strip "10.0.0.1") = Returns end_ip
        /\ end_ip < start_ip).
  { exists 167772165, 167772161.
    split; [vm_compute; reflexivity|]. split; [vm_compute; reflexivity|lia]. }
  split; [reflexivity|]. split; [exact H|].
  apply (expand_bad_range_returns_empty "10.0.0.5" "10.0.0.1");
    [reflexivity|]. right; right; exact H.
Defined.

(** C6 as stated fails: for 10.0.0.5-10.0.0.1, whose start exceeds its end,
    the call returns a list (the empty one) and raises nothing. *)
Lemma expand_reversed_range_does_not_raise :
  IPv4Address (strip "10.0.0.5") = Returns 167772165
  /\ IPv4Address (strip "10.0.0.1") = Returns 167772161
  /\ 167772161 < 167772165
  /\ expand_ip_range "10.0.0.5-10.0.0.1"
     = (Returns [], [ErrorParsingRange "10.0.0.5-10.0.0.1" ValueError])
  /\ ~ (exists e, (expand_ip_range "10.0.0.5-10.0.0.1").1 = Raises e).
Proof.
  split; [vm_compute; reflexivity|]. split; [vm_compute; reflexivity|].
  split; [lia|]. split; [vm_compute; reflexivity|].
  intros [e He]. vm_compute in He. discriminate He.
Qed.

Lemma expand_cidr_parts a m x nm p :
  IPv4Address a = Returns x ->
  _make_netmask (MaskStr m) = Returns (nm, p) ->
  expand_ip_range (a +:+ "/" +:+ m)
  = (Returns (map _string_from_ip_int (hosts_of (Z.land x nm) p)), []).
Proof.
  intros Hx Hm.
  pose proof (_make_netmask_no_slash _ _ _ Hm) as Hms.
  destruct (_make_netmask_inv _ _ _ Hm) as [Hp ->].
  unfold expand_ip_range. rewrite expand_ip_range_try_cidr.
  2:{ rewrite contains_app.
      replace (contains "/" ("/" +:+ m)) with true by done. apply orb_true_r. }
  rewrite (IPv4Network_cidr a m x _ p Hx Hms Hm). cbn [mbind outcome_bind].
  destruct (hosts_spec a x p Hx Hp) as [_ Hh]. rewrite Hh. done.
Qed.

Lemma host_in_network x p y :
  is_ip_int x -> is_prefixlen p ->
  Z.land x (_ip_int_from_prefix p) <= y
  < Z.land x (_ip_int_from_prefix p) + network_size p ->
  is_ip_int y
  /\ Z.land y (_ip_int_from_prefix p) = Z.land x (_ip_int_from_prefix p).
Proof.
  intros Hx Hp Hy.
  destruct (network_bounds x p Hx Hp) as (Hn0 & Hn1 & Hn2 & Hn3 & _).
  assert (Hyr : is_ip_int y) by (unfold is_ip_int in *; lia).
  split; [done|].
  rewrite (land_prefix_mask x) in * by done. rewrite land_prefix_mask by done.
  unfold network_size, is_prefixlen, _max_prefixlen, IPV4LENGTH in *.
  set (k := 32 - p) in *.
  assert (Hk : 0 < 2 ^ k) by (apply Z.pow_pos_nonneg; lia).
  f_equal. symmetry.
  apply (Z.div_unique y (2 ^ k) (x / 2 ^ k) (y - 2 ^ k * (x / 2 ^ k))); lia.
Qed.

Lemma hosts_of_spec x p :
  is_ip_int x -> is_prefixlen p ->
  let net := Z.land x (_ip_int_from_prefix p) in
  hosts_of net p <> []
  /\ NoDup (hosts_of net p)
  /\ Forall (fun y => net <= y < net + network_size p) (hosts_of net p)
  /\ (p <= 30 -> Z.of_nat (length (hosts_of net p)) = network_size p - 2).
Proof.
  intros Hx Hp net. unfold hosts_of.
  assert (Hsz : p <= 30 -> 4 <= network_size p).
  { intros Hle. unfold network_size, is_prefixlen, _max_prefixlen, IPV4LENGTH in *.
    change 4 with (2 ^ 2). apply Z.pow_le_mono_r; lia. }
  unfold is_prefixlen, _max_prefixlen, IPV4LENGTH in Hp.
  destruct (Z.eqb_spec p 31) as [->|H31]; [|destruct (Z.eqb_spec p 32) as [->|H32]].
  - change (network_size 31) with 2. split; [done|].
    split; [|split; [|lia]].
    + apply NoDup_cons. split; [|apply NoDup_singleton].
      intros H%list_elem_of_singleton. lia.
    + repeat constructor; lia.
  - change (network_size 32) with 1. split; [done|].
    split; [apply NoDup_singleton|]. split; [|lia]. repeat constructor; lia.
  - specialize (Hsz ltac:(lia)). split; [by rewrite seqZ_cons by lia|].
    split; [apply NoDup_seqZ|]. split.
    + apply Forall_forall. intros y Hy%elem_of_seqZ. lia.
    + intros _. rewrite length_seqZ. lia.
Qed.

(** C10.  A CIDR text [a/m] whose address part has host bits set is
    accepted, because the network is built with [strict=False] (with
    [strict=True] the same text is refused): the network is the enclosing
    one, whose address is the given address with the host bits cleared.
    The call prints no error and returns the texts of the host addresses
    of that network: a non-empty list of addresses that all lie in it, for
    a prefix length of at most 30 every address strictly between its
    network address and its broadcast address in ascending order, for a
    /31 both its addresses and for a /32 its one address.  This is the
    list returned for the enclosing network written with the host bits
    cleared. *)
Theorem expand_cidr_host_bits (a m : string) (x nm p : Z) :
  IPv4Address a = Returns x ->
  _make_netmask (MaskStr m) = Returns (nm, p) ->
  Z.land x nm <> x ->
  let net := Z.land x nm in
  IPv4Network (a +:+ "/" +:+ m) true = Raises ValueError
  /\ IPv4Network (a +:+ "/" +:+ m) false
     = Returns {| network_address := net; netmask := nm;
                  _prefixlen := p; addr := a |}
  /\ expand_ip_range (a +:+ "/" +:+ m)
     = (Returns (map _string_from_ip_int (hosts_of net p)), [])
  /\ hosts_of net p <> []
  /\ numeric (map _string_from_ip_int (hosts_of net p)) = Returns (hosts_of net p)
  /\ Forall (fun y => Z.land y nm = net) (hosts_of net p)
  /\ (p <= 30 -> hosts_of net p = seqZ (net + 1) (network_size p - 2))
  /\ (p = 31 -> hosts_of net p = [net; net + 1])
  /\ (p = 32 -> hosts_of net p = [net])
  /\ expand_ip_range (a +:+ "/" +:+ m)
     = expand_ip_range (_string_from_ip_int net +:+ "/" +:+ m).
Proof.
  intros Hx Hm Hbits net.
  pose proof (_make_netmask_no_slash _ _ _ Hm) as Hms.
  pose proof (expand_cidr_parts a m x nm p Hx Hm) as Hexp. fold net in Hexp.
  pose proof (IPv4Network_cidr a m x nm p Hx Hms Hm) as Hnw. fold net in Hnw.
  destruct (_make_netmask_inv _ _ _ Hm) as [Hp Hnm].
  pose proof (IPv4Address_is_ip_int _ _ Hx) as Hxr.
  assert (Hspec := hosts_of_spec x p Hxr Hp). cbv zeta in Hspec.
  rewrite <- Hnm in Hspec. fold net in Hspec.
  destruct Hspec as (Hne & _ & Hin & _).
  assert (Hall : Forall (fun y => is_ip_int y /\ Z.land y nm = net) (hosts_of net p)).
  { eapply Forall_impl; [exact Hin|]. intros y Hy. unfold net. rewrite Hnm.
    apply host_in_network; [done|done|]. by rewrite <- Hnm. }
  apply Forall_and in Hall as [Hall1 Hall2].
  destruct (network_bounds x p Hxr Hp) as (Hn0 & Hn1 & _).
  rewrite <- Hnm in Hn0, Hn1. fold net in Hn0, Hn1.
  assert (Hnet : is_ip_int net) by (unfold is_ip_int in *; lia).
  assert (Hidem : Z.land net nm = net).
  { unfold net. by rewrite <- Z.land_assoc, Z.land_diag. }
  split.
  { unfold IPv4Network, _split_addr_prefix, _split_optional_netmask.
    rewrite (string_app_sep "/"), split_app_sep by by eapply IPv4Address_no_slash.
    rewrite split_no_sep by done. simpl. rewrite Hx. simpl. rewrite Hm. simpl.
    fold net. by destruct (Z.eqb_spec net x). }
  split; [exact Hnw|]. split; [exact Hexp|]. split; [exact Hne|].
  split; [by apply numeric_map_string|]. split; [exact Hall2|].
  unfold is_prefixlen, _max_prefixlen, IPV4LENGTH in Hp.
  split; [|split; [|split]].
  - intros Hle. unfold hosts_of.
    destruct (Z.eqb_spec p 31); [lia|]. by destruct (Z.eqb_spec p 32); [lia|].
  - by intros ->.
  - by intros ->.
  - rewrite Hexp.
    rewrite (expand_cidr_parts (_string_from_ip_int net) m net nm p
               (IPv4Address_string_from_ip_int net Hnet) Hm).
    by rewrite Hidem.
Qed.

Lemma expand_cidr_host_bits_witness :
  IPv4Address "192.168.1.5" = Returns 3232235781
  /\ _make_netmask (MaskStr "24") = Returns (4294967040, 24)
  /\ Z.land 3232235781 4294967040 <> 3232235781
  /\ Z.land 3232235781 4294967040 = 3232235776
  /\ _string_from_ip_int 3232235776 = "192.168.1.0"
  /\ IPv4Network ("192.168.1.5" +:+ "/" +:+ "24") true = Raises ValueError
  /\ IPv4Network ("192.168.1.5" +:+ "/" +:+ "24") false
     = Returns {| network_address := 3232235776; netmask := 4294967040;
                  _prefixlen := 24; addr := "192.168.1.5" |}
  /\ expand_ip_range ("192.168.1.5" +:+ "/" +:+ "24")
     = (Returns (map _string_from_ip_int (hosts_of 3232235776 24)), [])
  /\ hosts_of 3232235776 24 <> []
  /\ numeric (map _string_from_ip_int (hosts_of 3232235776 24))
     = Returns (hosts_of 3232235776 24)
  /\ Forall (fun y => Z.land y 4294967040 = 3232235776) (hosts_of 3232235776 24)
  /\ (24 <= 30 ->
      hosts_of 3232235776 24 = seqZ (3232235776 + 1) (network_size 24 - 2))
  /\ (24 = 31 -> hosts_of 3232235776 24 = [3232235776; 3232235776 + 1])
  /\ (24 = 32 -> hosts_of 3232235776 24 = [3232235776])
  /\ expand_ip_range ("192.168.1.5" +:+ "/" +:+ "24")
     = expand_ip_range (_string_from_ip_int 3232235776 +:+ "/" +:+ "24").
Proof.
  split; [vm_compute; reflexivity|]. split; [vm_compute; reflexivity|].
  split; [vm_compute; discriminate|]. split; [reflexivity|].
  split; [vm_compute; reflexivity|].
  apply (expand_cidr_host_bits "192.168.1.5" "24" 3232235781 4294967040 24).
  - vm_compute; reflexivity.
  - vm_compute; reflexivity.
  - vm_compute; discriminate.
Defined.

(** ** The parallel scan *)

Lemma as_completed_submit_all ips order :
  as_completed (submit_all ips) order <-> order ≡ₚ seq 0 (length ips).
Proof.
  unfold as_completed, submit_all.
  assert (Hel : elements (dom (map_seq 0 ips : gmap Future string))
                ≡ₚ seq 0 (length ips)).
  { apply NoDup_Permutation; [apply NoDup_elements|apply NoDup_seq|].
    intros f. rewrite elem_of_elements, dom_seq_L, elem_of_set_seq, elem_of_seq.
    done. }
  by rewrite Hel.
Qed.

Lemma check_ips_parallel_loop ips total show_progress ran order rs c :
  Forall (fun f => (f < length ips)%nat) order ->
  exists c' out,
    for_each order (rs, c) (collect_result (submit_all ips) total show_progress ran)
    = (Returns ((rs ++ map (result_of_future ran ips) order)%list, c'), out).
Proof.
  intros Hall. revert rs c.
  induction Hall as [|f order Hf _ IH]; intros rs c.
  - exists c, []. simpl. by rewrite app_nil_r.
  - apply lookup_lt_is_Some_2 in Hf as [ip Hip].
    destruct (IH (rs ++ [ping_result (ran f) ip])%list (c + 1)) as (c' & out & Heq).
    exists c'. cbn [map for_each]. unfold result_of_future at 1. rewrite Hip.
    unfold collect_result at 1. unfold submit_all at 1.
    rewrite lookup_map_seq_0, Hip.
    destruct show_progress; eexists; simpl; rewrite Heq; simpl;
      rewrite <- app_assoc; reflexivity.
Qed.

Lemma results_by_position ran ips :
  map (result_of_future ran ips) (seq 0 (length ips))
  = imap (fun i ip => ping_result (ran i) ip) ips.
Proof.
  apply list_eq. intros i.
  rewrite list_lookup_fmap, list_lookup_imap.
  destruct (ips !! i) as [ip|] eqn:Hip.
  - rewrite lookup_seq_lt by by eapply lookup_lt_Some.
    simpl. unfold result_of_future. by rewrite Hip.
  - rewrite lookup_seq_ge by by apply lookup_ge_None. done.
Qed.

(** C3, as the code has it.  With a pool of at least one worker, the scan
    returns one result per element of the address list, whatever the
    completion order: the results are, up to that order, the results of
    one probe per list position, so a repeated address is probed once per
    occurrence and the length of the result equals the length of the
    input.  With a number of workers below 1 the pool constructor raises
    [ValueError]: the scan returns no result list and prints nothing,
    whatever the address list is. *)
Theorem check_ips_parallel_one_result_per_element
    (ip_addresses : list string) (max_workers : Z) (show_progress : bool)
    (ran : Future -> run_result) (completion_order : list Future) :
  as_completed (submit_all ip_addresses) completion_order ->
  (0 < max_workers ->
   exists results out,
     check_ips_parallel ip_addresses max_workers show_progress ran completion_order
     = (Returns results, out)
     /\ length results = length ip_addresses
     /\ results ≡ₚ imap (fun i ip => ping_result (ran i) ip) ip_addresses)
  /\ (max_workers <= 0 ->
      check_ips_parallel ip_addresses max_workers show_progress ran completion_order
      = (Raises ValueError, [])).
Proof.
  intros Hord. split; [intros Hw|intros Hw].
  2:{ unfold check_ips_parallel, ThreadPoolExecutor.
      by destruct (Z.leb_spec max_workers 0); [|lia]. }
  apply as_completed_submit_all in Hord.
  assert (Hall : Forall (fun f => (f < length ip_addresses)%nat) completion_order).
  { apply Forall_forall. intros f Hf. rewrite Hord in Hf.
    apply elem_of_seq in Hf. lia. }
  destruct (check_ips_parallel_loop ip_addresses (list_len ip_addresses)
              show_progress ran completion_order [] 0 Hall) as (c' & out & Hloop).
  assert (Hperm : map (result_of_future ran ip_addresses) completion_order
                  ≡ₚ imap (fun i ip => ping_result (ran i) ip) ip_addresses).
  { rewrite <- results_by_position. by apply fmap_Permutation. }
  exists (map (result_of_future ran ip_addresses) completion_order).
  unfold check_ips_parallel, ThreadPoolExecutor.
  destruct (Z.leb_spec max_workers 0); [lia|].
  assert (Hrun : exists out',
    (let results : list ProbeResult := [] in
     let completed := 0 in
     let total := list_len ip_addresses in
     let future_to_ip := submit_all ip_addresses in
     when show_progress (print (ScanBanner total (Z.min max_workers total))) ;;;
     acc <~ for_each completion_order (results, completed)
              (collect_result future_to_ip total show_progress ran) ;;
     io_ret acc.1)
    = (Returns (map (result_of_future ran ip_addresses) completion_order), out')).
  { cbv zeta. destruct show_progress; eexists;
      cbn [when print io_ret io_bind]; rewrite Hloop;
      cbn [io_bind io_ret fst snd app]; reflexivity. }
  destruct Hrun as [out' Hrun]. exists out'. split.
  - cbn [lift io_bind]. cbv zeta in Hrun. rewrite Hrun. by rewrite app_nil_l.
  - split; [|done]. rewrite Hperm. apply length_imap.
Qed.

Lemma check_ips_parallel_one_result_per_element_witness :
  0 < 10
  /\ as_completed (submit_all ["10.0.0.1"; "10.0.0.1"; "10.0.0.2"]) [2; 0; 1]%nat
  /\ exists results out,
       check_ips_parallel ["10.0.0.1"; "10.0.0.1"; "10.0.0.2"] 10 false
         (fun f => if (f =? 1)%nat then Completed 0 else TimeoutExpired)
         [2; 0; 1]%nat
       = (Returns results, out)
       /\ length results = 3%nat
       /\ results ≡ₚ imap (fun i ip =>
              ping_result (if (i =? 1)%nat then Completed 0 else TimeoutExpired) ip)
            ["10.0.0.1"; "10.0.0.1"; "10.0.0.2"].
Proof.
  assert (Hord : as_completed (submit_all ["10.0.0.1"; "10.0.0.1"; "10.0.0.2"])
                   [2; 0; 1]%nat).
  { apply as_completed_submit_all. simpl.
    apply (Permutation_app_comm [2%nat] [0%nat; 1%nat]). }
  split; [lia|]. split; [exact Hord|].
  apply (check_ips_parallel_one_result_per_element
           ["10.0.0.1"; "10.0.0.1"; "10.0.0.2"] 10 false
           (fun f => if (f =? 1)%nat then Completed 0 else TimeoutExpired)
           [2; 0; 1]%nat Hord).
  lia.
Defined.

(** C3 as stated fails: with no worker ([--workers 0], which [main] passes
    on unchecked) the scan of a one-element list raises [ValueError] and
    returns no result at all, so the length of its result is not the
    length of the input. *)
Lemma scan_without_workers_returns_no_results :
  as_completed (submit_all ["10.0.0.1"]) [0%nat]
  /\ check_ips_parallel ["10.0.0.1"] 0 false (fun _ => Completed 0) [0%nat]
     = (Raises ValueError, [])
  /\ ~ (exists results out,
         check_ips_parallel ["10.0.0.1"] 0 false (fun _ => Completed 0) [0%nat]
         = (Returns results, out)
         /\ length results = length ["10.0.0.1"]).
Proof.
  split; [by apply as_completed_submit_all|]. split; [reflexivity|].
  intros (results & out & H & _). vm_compute in H. discriminate H.
Qed.

(** ** The result table *)

Lemma insert_by_key_Permutation {A} (key : A -> string) x l :
  insert_by_key key x l ≡ₚ x :: l.
Proof.
  induction l as [|y l IH]; simpl; [done|].
  destruct (String.leb (key x) (key y)); [done|].
  rewrite IH. apply Permutation_swap.
Qed.

Lemma list_sort_Permutation {A} (key : A -> string) l : list_sort key l ≡ₚ l.
Proof.
  induction l as [|x l IH]; simpl; [done|].
  by rewrite insert_by_key_Permutation, IH.
Qed.

Lemma insert_by_key_Sorted x l :
  Sorted address_le l -> Sorted address_le (insert_by_key address_of x l).
Proof.
  induction 1 as [|y l Hl IH Hhd]; simpl; [by repeat constructor|].
  destruct (String.leb (address_of x) (address_of y)) eqn:Hxy.
  - constructor; [by constructor|]. by constructor.
  - assert (Hyx : address_le y x).
    { unfold address_le.
      destruct (String.leb_total (address_of x) (address_of y)); congruence. }
    constructor; [done|].
    destruct Hhd as [|z l Hyz]; simpl; [by constructor|].
    destruct (String.leb (address_of x) (address_of z)); by constructor.
Qed.

Lemma list_sort_Sorted l : Sorted address_le (list_sort address_of l).
Proof.
  induction l as [|x l IH]; simpl; [constructor|]. by apply insert_by_key_Sorted.
Qed.

Lemma list_sort_id l : Sorted address_le l -> list_sort address_of l = l.
Proof.
  induction 1 as [|x l Hl IH Hhd]; simpl; [done|]. rewrite IH.
  destruct Hhd as [|y l Hxy]; simpl; [done|]. unfold address_le in Hxy.
  by rewrite Hxy.
Qed.

Lemma count_alive_cons r l :
  count_alive (r :: l)
  = (if is_alive_of r then count_alive l + 1 else count_alive l).
Proof.
  unfold count_alive, list_len. rewrite filter_cons.
  destruct (is_alive_of r); simpl; [lia|done].
Qed.

Lemma print_row_loop round_robin l acc :
  for_each l acc (print_row round_robin)
  = (Returns (acc + count_alive l), map (result_row round_robin) l).
Proof.
  revert acc. induction l as [|[[ip alive] msg] l IH]; intros acc.
  - simpl. unfold io_ret, count_alive, list_len. simpl. do 2 f_equal. lia.
  - cbn [for_each map]. unfold print_row at 1.
    cbn [print io_bind io_ret app]. rewrite IH.
    rewrite count_alive_cons.
    destruct alive; unfold result_row, is_alive_of, address_of, message_of;
      simpl; do 2 f_equal; lia.
Qed.

Lemma count_alive_Permutation l k : l ≡ₚ k -> count_alive l = count_alive k.
Proof. intros H. unfold count_alive, list_len. by rewrite H. Qed.

Lemma print_summary_lines round_robin alive_count total_count :
  total_count <> 0 ->
  print_summary round_robin alive_count total_count
  = (Returns tt,
     if round_robin
     then [StatusLine alive_count total_count (success_rate alive_count total_count)]
     else [SummaryLine alive_count total_count (total_count - alive_count);
           SuccessRateLine (success_rate alive_count total_count)]).
Proof.
  intros Ht. unfold print_summary, percent, py_truediv, success_rate.
  destruct (Z.eqb_spec total_count 0); [done|]. by destruct round_robin.
Qed.

Lemma print_results_nonempty r results show_summary round_robin timestamp :
  (print_results (r :: results) show_summary round_robin timestamp).2
  = (Returns tt, table_lines (r :: results) show_summary round_robin timestamp).
Proof.
  unfold table_lines.
  set (l := r :: results).
  set (alive_count := count_alive l). set (total_count := list_len l).
  assert (Ht : total_count <> 0) by (unfold total_count, list_len; simpl; lia).
  unfold print_results. fold l. cbn [snd].
  pose proof (list_sort_Permutation address_of l) as Hperm.
  assert (Ha : 0 + count_alive (list_sort address_of l) = alive_count).
  { unfold alive_count. rewrite (count_alive_Permutation _ _ Hperm). lia. }
  assert (Hl : list_len (list_sort address_of l) = total_count).
  { unfold total_count, list_len. by rewrite Hperm. }
  assert (Hhead : forall h : line,
    (print h ;;;
     alive_count <~ for_each (list_sort address_of l) 0 (print_row round_robin) ;;
     when show_summary
       (print_summary round_robin alive_count (list_len (list_sort address_of l))))
    = (Returns tt,
       (h :: map (result_row round_robin) (list_sort address_of l))
       ++ (if show_summary then
             if round_robin
             then [StatusLine alive_count total_count
                     (success_rate alive_count total_count)]
             else [SummaryLine alive_count total_count
                     (total_count - alive_count);
                   SuccessRateLine (success_rate alive_count total_count)]
           else []))%list).
  { intros h. cbn [print io_bind]. rewrite print_row_loop, Ha, Hl.
    destruct show_summary; cbn [when io_ret io_bind].
    - rewrite print_summary_lines by done. done.
    - done. }
  destruct round_robin; apply Hhead.
Qed.

(** C7, as the code has it.  On the empty result list [print_results]
    does not fail: it prints that there is nothing to display and returns
    normally, without computing a rate; on a list
    that is not empty the call returns normally too (no division by zero
    on any input), the total is not zero, and the rate in the summary is
    [alive_count / total_count * 100], where [alive_count] is the number
    of alive results and [total_count] the length of the list. *)
Theorem print_results_success_rate
    (results : list ProbeResult) (show_summary round_robin : bool)
    (timestamp : string) :
  let alive_count := count_alive results in
  let total_count := list_len results in
  match results with
  | [] =>
      print_results results show_summary round_robin timestamp
      = ([], (Returns tt, [NoResults]))
  | _ :: _ =>
      total_count <> 0
      /\ percent alive_count total_count
         = Returns (inject_Z alive_count / inject_Z total_count * 100)%Q
      /\ (print_results results show_summary round_robin timestamp).2
         = (Returns tt,
            ((if round_robin then RoundRobinHeader timestamp else TableHeader)
             :: map (result_row round_robin) (list_sort address_of results))
            ++ (if show_summary then
                  if round_robin
                  then [StatusLine alive_count total_count
                          (success_rate alive_count total_count)]
                  else [SummaryLine alive_count total_count
                          (total_count - alive_count);
                        SuccessRateLine (success_rate alive_count total_count)]
                else []))%list
  end.
Proof.
  intros alive_count total_count. destruct results as [|r results]; [done|].
  assert (Ht : total_count <> 0) by (unfold total_count, list_len; simpl; lia).
  split; [done|]. split.
  { unfold percent, py_truediv. by destruct (Z.eqb_spec total_count 0). }
  apply print_results_nonempty.
Qed.

(** C8, as the code has it.  [print_results] sorts the caller's list in
    place: after the call the list holds the same results, stably sorted by
    address text.  It is the list the caller passed exactly when that list
    was sorted already. *)
Theorem print_results_sorts_in_place
    (results : list ProbeResult) (show_summary round_robin : bool)
    (timestamp : string) :
  let after := (print_results results show_summary round_robin timestamp).1 in
  after = list_sort address_of results
  /\ after ≡ₚ results
  /\ Sorted address_le after
  /\ (after = results <-> Sorted address_le results).
Proof.
  intros after.
  assert (Hafter : after = list_sort address_of results).
  { unfold after, print_results. by destruct results. }
  rewrite Hafter. split; [done|]. split; [apply list_sort_Permutation|].
  split; [apply list_sort_Sorted|]. split.
  - intros <-. apply list_sort_Sorted.
  - apply list_sort_id.
Qed.

(** C7 as stated fails: the empty result list is not rejected.  The call
    prints that there is nothing to display and returns normally, like
    every other call; nothing is raised. *)
Lemma print_results_of_empty_list_returns :
  print_results [] true false "" = ([], (Returns tt, [NoResults]))
  /\ print_results [] true true "" = ([], (Returns tt, [NoResults]))
  /\ ~ (exists e, (print_results [] true false "").2.1 = Raises e).
Proof.
  split; [reflexivity|]. split; [reflexivity|].
  intros [e He]. vm_compute in He. discriminate He.
Qed.

(** C8 as stated fails: a list that is not sorted by address is changed by
    the call. *)
Lemma print_results_changes_callers_list :
  (print_results [("10.0.0.2", true, "Alive"); ("10.0.0.1", false, "Timeout")]
     true false "").1
  <> [("10.0.0.2", true, "Alive"); ("10.0.0.1", false, "Timeout")].
Proof. vm_compute. discriminate. Qed.

(** ** The monitor *)

Lemma io_bind_Returns {A B} (c : io A) (f : A -> io B) a out1 r out2 :
  c = (Returns a, out1) -> f a = (r, out2) ->
  io_bind c f = (r, (out1 ++ out2)%list).
Proof. intros -> Hf. unfold io_bind. by rewrite Hf. Qed.

(** A loop whose body always returns runs to the end; it computes the left
    fold of the body's state change. *)
Lemma for_each_fold {A S} (P : line -> Prop) (step : S -> A -> S)
    (body : S -> A -> io S) xs acc :
  (forall acc x, exists out, body acc x = (Returns (step acc x), out) /\ Forall P out) ->
  exists out,
    for_each xs acc body = (Returns (fold_left step xs acc), out) /\ Forall P out.
Proof.
  intros Hbody. revert acc. induction xs as [|x xs IH]; intros acc.
  - exists []. by split.
  - destruct (Hbody acc x) as (out1 & H1 & HP1).
    destruct (IH (step acc x)) as (out2 & H2 & HP2).
    exists (out1 ++ out2)%list. split; [|by apply Forall_app].
    cbn [for_each fold_left]. by apply io_bind_Returns with (a := step acc x).
Qed.

Lemma record_result_last_n window b :
  (length window <= 10)%nat ->
  record_result window b = last_n 10 (window ++ [b]).
Proof.
  intros H. unfold record_result, list_len, last_n.
  rewrite length_app. simpl.
  destruct (Z.ltb_spec 10 (Z.of_nat (length window + 1))) as [Hlt|Hge].
  - replace (length window + 1 - 10)%nat with 1%nat by lia.
    by destruct window.
  - replace (length window + 1 - 10)%nat with 0%nat by lia. done.
Qed.

Lemma last_n_length {A} n (l : list A) : (length (last_n n l) <= n)%nat.
Proof. unfold last_n. rewrite length_drop. lia. Qed.

Lemma record_result_length window b :
  (length window <= 10)%nat -> (length (record_result window b) <= 10)%nat.
Proof. intros H. rewrite record_result_last_n by done. apply last_n_length. Qed.

Lemma last_n_app_last_n {A} n (l k : list A) :
  last_n n (last_n n l ++ k) = last_n n (l ++ k).
Proof.
  unfold last_n. rewrite !length_app, length_drop.
  rewrite <- (drop_app_le l k) by lia.
  rewrite drop_drop. f_equal. lia.
Qed.

(** Appending results one by one keeps the last 10 of them. *)
Lemma fold_record_result bs window :
  (length window <= 10)%nat ->
  fold_left record_result bs window = last_n 10 (window ++ bs).
Proof.
  revert window. induction bs as [|b bs IH]; intros window Hw; simpl.
  - rewrite app_nil_r. unfold last_n.
    by replace (length window - 10)%nat with 0%nat by lia.
  - rewrite IH by by apply record_result_length.
    rewrite record_result_last_n by done.
    rewrite last_n_app_last_n. by rewrite <- app_assoc.
Qed.

Section MonitorProperties.

Variable ran : Z -> nat -> run_result.
Variable now : Z -> string.
Variable ip_addresses : list string.
Variables interval timeout count : Z.

Lemma probe_address_step c acc entry :
  exists out,
    probe_address ran ip_addresses c acc entry = (Returns (probe_step ran c acc entry), out)
    /\ no_final_statistics out.
Proof.
  destruct acc as [results history], entry as [i ip].
  eexists. split; [reflexivity|]. by repeat constructor.
Qed.

Lemma probe_addresses_spec c k history :
  exists out,
    probe_addresses ran ip_addresses c k history
    = (Returns (fold_left (probe_step ran c) (take k (entries ip_addresses)) ([], history)), out)
    /\ no_final_statistics out.
Proof.
  unfold probe_addresses. apply for_each_fold. apply probe_address_step.
Qed.

Lemma fold_probe_step_lookup c es acc addr :
  (fold_left (probe_step ran c) es acc).2 !!! addr
  = fold_left record_result (cycle_outcomes ran c es addr) (acc.2 !!! addr).
Proof.
  revert acc. induction es as [|[i ip] es IH]; intros acc; [done|].
  cbn [fold_left]. rewrite IH. unfold cycle_outcomes. rewrite filter_cons.
  cbn [snd fst probe_step]. case_decide as Hip.
  - subst ip. cbn [map fold_left fst snd]. by rewrite lookup_total_insert_eq.
  - by rewrite lookup_total_insert_ne.
Qed.

Lemma fold_probe_step_bounded c es acc :
  (forall addr, (length (acc.2 !!! addr) <= 10)%nat) ->
  forall addr, (length ((fold_left (probe_step ran c) es acc).2 !!! addr) <= 10)%nat.
Proof.
  revert acc. induction es as [|[i ip] es IH]; intros acc Hacc addr; [done|].
  cbn [fold_left]. apply IH. intros a. cbn [snd fst probe_step].
  destruct (decide (ip = a)) as [->|Hne].
  - rewrite lookup_total_insert_eq. by apply record_result_length.
  - by rewrite lookup_total_insert_ne.
Qed.

Lemma initial_history_lookup addr : initial_history ip_addresses !!! addr = [].
Proof.
  rewrite lookup_total_alt. unfold initial_history.
  destruct (list_to_map _ !! addr) as [w|] eqn:Hw; [|done].
  apply elem_of_list_to_map_2 in Hw. apply list_elem_of_fmap in Hw as (ip & Heq & _).
  by injection Heq as _ ->.
Qed.

Lemma history_iter_lookup n c history addr :
  history_iter ran ip_addresses n c history !!! addr
  = fold_left record_result (outcomes_iter ran ip_addresses n c addr) (history !!! addr).
Proof.
  revert c history. induction n as [|n IH]; intros c history; [done|].
  cbn [history_iter outcomes_iter]. rewrite IH. unfold history_step.
  rewrite fold_probe_step_lookup. by rewrite fold_left_app.
Qed.

Lemma history_iter_bounded n c history :
  (forall addr, (length (history !!! addr) <= 10)%nat) ->
  forall addr, (length (history_iter ran ip_addresses n c history !!! addr) <= 10)%nat.
Proof.
  revert c history. induction n as [|n IH]; intros c history Hh addr; [done|].
  cbn [history_iter]. apply IH. intros a. unfold history_step.
  by apply fold_probe_step_bounded.
Qed.

Lemma percent_Returns a b :
  b <> 0 -> percent a b = Returns (success_rate a b).
Proof.
  intros Hb. unfold percent, py_truediv, success_rate.
  by destruct (Z.eqb_spec b 0).
Qed.

Lemma list_len_cons_nonzero {A} (x : A) l : list_len (x :: l) <> 0.
Proof. unfold list_len. simpl. lia. Qed.

Lemma print_results_quiet results show_summary round_robin timestamp :
  exists out,
    (print_results results show_summary round_robin timestamp).2 = (Returns tt, out)
    /\ no_final_statistics out.
Proof.
  destruct results as [|r results].
  - exists [NoResults]. split; [done|]. by repeat constructor.
  - eexists. split; [apply print_results_nonempty|].
    unfold table_lines, no_final_statistics.
    apply Forall_app. split.
    + constructor; [by destruct round_robin|].
      apply Forall_forall. intros l Hl.
      apply list_elem_of_fmap in Hl as (x & -> & _). done.
    + destruct show_summary, round_robin; by repeat constructor.
Qed.

Lemma uptime_line_step history u ip :
  exists out,
    uptime_line history u ip = (Returns tt, out) /\ no_final_statistics out.
Proof.
  unfold uptime_line. destruct (history !!! ip) as [|b w] eqn:Hw.
  - exists []. split; [done|constructor].
  - rewrite percent_Returns by apply list_len_cons_nonzero.
    eexists. split; [reflexivity|]. by repeat constructor.
Qed.

Lemma uptime_statistics_spec c history :
  exists out,
    uptime_statistics ip_addresses c history = (Returns tt, out)
    /\ no_final_statistics out.
Proof.
  unfold uptime_statistics, when. destruct (c mod 10 =? 0).
  - destruct (for_each_fold (fun l => is_final_statistics l = false)
                (fun _ _ => tt) (uptime_line history) ip_addresses tt)
      as (out & Hloop & Hq).
    { intros [] ip. apply uptime_line_step. }
    assert (Hfold : fold_left (fun (_ : unit) (_ : string) => tt) ip_addresses tt = tt)
      by by destruct (fold_left _ _ _).
    rewrite Hfold in Hloop.
    eexists. split.
    + eapply io_bind_Returns; [reflexivity|].
      eapply io_bind_Returns; [exact Hloop|reflexivity].
    + apply Forall_app. split; [by repeat constructor|].
      apply Forall_app. split; [done|by repeat constructor].
  - exists []. split; [done|constructor].
Qed.

Lemma take_all_entries : take (length ip_addresses) (entries ip_addresses) = (entries ip_addresses).
Proof. apply take_ge. unfold entries. by rewrite length_imap. Qed.

(** One pass of the loop returns, advances the counter and updates the
    history as the probing loop leaves it. *)
Lemma cycle_spec c history :
  exists out,
    cycle ran now ip_addresses interval (c, history)
    = (Returns (c + 1, history_step ran ip_addresses (c + 1) history), out)
    /\ no_final_statistics out.
Proof.
  unfold cycle.
  destruct (probe_addresses_spec (c + 1) (length ip_addresses) history)
    as (out1 & H1 & Q1).
  rewrite take_all_entries in H1.
  destruct (fold_left (probe_step ran (c + 1)) (entries ip_addresses) ([], history))
    as [results history'] eqn:Hfold.
  destruct (print_results_quiet results true true (now (c + 1)))
    as (out2 & H2 & Q2).
  destruct (uptime_statistics_spec (c + 1) history') as (out3 & H3 & Q3).
  eexists. split.
  - eapply io_bind_Returns; [reflexivity|].
    eapply io_bind_Returns; [exact H1|]. cbv beta iota.
    eapply io_bind_Returns; [exact H2|].
    eapply io_bind_Returns; [exact H3|].
    eapply io_bind_Returns; [reflexivity|].
    unfold history_step. rewrite Hfold. reflexivity.
  - repeat (apply Forall_app; split); try done; by repeat constructor.
Qed.

Lemma cycles_spec n c history :
  exists out,
    cycles ran now ip_addresses interval n (c, history)
    = (Returns (c + Z.of_nat n, history_iter ran ip_addresses n c history), out)
    /\ no_final_statistics out.
Proof.
  revert c history. induction n as [|n IH]; intros c history.
  - exists []. split; [|constructor]. simpl. unfold io_ret. do 3 f_equal. lia.
  - destruct (cycle_spec c history) as (out1 & H1 & Q1).
    destruct (IH (c + 1) (history_step ran ip_addresses (c + 1) history)) as (out2 & H2 & Q2).
    exists (out1 ++ out2)%list. split; [|by apply Forall_app].
    cbn [cycles history_iter]. eapply io_bind_Returns; [exact H1|].
    rewrite H2. do 3 f_equal. lia.
Qed.

Lemma history_after_iter n :
  history_after ran now ip_addresses interval n
  = history_iter ran ip_addresses n 0 (initial_history ip_addresses).
Proof.
  unfold history_after.
  destruct (cycles_spec n 0 (initial_history ip_addresses)) as (out & -> & _).
  done.
Qed.

(** The pass the interrupt cuts short returns as well, up to that point. *)
Lemma interrupted_cycle_spec pt st :
  exists st' out,
    interrupted_cycle ran now ip_addresses interval pt st = (Returns st', out)
    /\ no_final_statistics out.
Proof.
  destruct st as [c history]. destruct pt as [k|].
  - unfold interrupted_cycle.
    destruct (probe_addresses_spec (c + 1) k history) as (out1 & H1 & Q1).
    destruct (fold_left (probe_step ran (c + 1)) (take k (entries ip_addresses)) ([], history))
      as [results history'] eqn:Hfold.
    eexists _, _. split.
    + eapply io_bind_Returns; [reflexivity|].
      eapply io_bind_Returns; [exact H1|]. cbv beta iota.
      eapply io_bind_Returns; [reflexivity|]. reflexivity.
    + repeat (apply Forall_app; split); try done; by repeat constructor.
  - destruct (cycle_spec c history) as (out & H & Q). eauto.
Qed.

(** With [signal_handler] installed, an interrupt ends the loop with
    [SystemExit]: the [except KeyboardInterrupt] clause is not entered and
    nothing of the final statistics is printed. *)
Lemma monitor_loop_signal_handler n pt :
  exists out,
    monitor_loop ran now ip_addresses interval signal_handler n pt
    = (Raises (SystemExit 0), out)
    /\ no_final_statistics out.
Proof.
  unfold monitor_loop.
  destruct (cycles_spec n 0 (initial_history ip_addresses)) as (out1 & -> & Q1).
  destruct (interrupted_cycle_spec pt
              (0 + Z.of_nat n, history_iter ran ip_addresses n 0 (initial_history ip_addresses)))
    as ([c history] & out2 & -> & Q2).
  eexists. split; [reflexivity|].
  repeat (apply Forall_app; split); try done; by repeat constructor.
Qed.

Lemma final_stat_line_step history u ip :
  exists out, final_stat_line history u ip = (Returns tt, out).
Proof.
  unfold final_stat_line. destruct (history !!! ip) as [|b w] eqn:Hw.
  - by exists [].
  - rewrite percent_Returns by apply list_len_cons_nonzero.
    eexists. reflexivity.
Qed.

(** With Python's default handler the same interrupt reaches the [except]
    clause, and the final statistics are printed. *)
Lemma monitor_loop_default_handler n pt :
  exists out stats,
    monitor_loop ran now ip_addresses interval default_int_handler n pt
    = (Returns tt, (out ++ MonitoringStopped :: FinalStatisticsHeader :: stats)%list).
Proof.
  unfold monitor_loop.
  destruct (cycles_spec n 0 (initial_history ip_addresses)) as (out1 & -> & _).
  destruct (interrupted_cycle_spec pt
              (0 + Z.of_nat n, history_iter ran ip_addresses n 0 (initial_history ip_addresses)))
    as ([c history] & out2 & -> & _).
  destruct (for_each_fold (fun _ => True) (fun _ _ => tt)
              (final_stat_line history) ip_addresses tt) as (stats & Hloop & _).
  { intros [] ip. destruct (final_stat_line_step history tt ip) as [out ->].
    exists out. split; [done|]. by apply Forall_forall. }
  assert (Hfold : fold_left (fun (_ : unit) (_ : string) => tt) ip_addresses tt = tt)
    by by destruct (fold_left _ _ _).
  rewrite Hfold in Hloop.
  exists (out1 ++ out2)%list, stats.
  cbn [deliver_sigint lift]. unfold final_statistics.
  cbn [print io_bind]. rewrite Hloop. cbn [app].
  by rewrite <- app_assoc.
Qed.

End MonitorProperties.

(** ** Claims about the monitor *)

(** C1, on the code.  Whenever [SIGINT] reaches a running monitor (after
    any number of complete passes, while an address is being probed or
    during the sleep), [round_robin_monitor] ends with [SystemExit(0)]
    raised by [signal_handler], and no line of the final statistics has
    been printed: not the header and not a line for any address. *)
Theorem round_robin_monitor_interrupt_prints_no_final_statistics
    (ran : Z -> nat -> run_result) (now : Z -> string)
    (ip_addresses : list string) (interval timeout count : Z)
    (n : nat) (pt : interrupt_point) :
  exists out,
    round_robin_monitor ran now ip_addresses interval timeout count n pt
    = (Raises (SystemExit 0), out)
    /\ no_final_statistics out.
Proof.
  destruct (monitor_loop_signal_handler ran now ip_addresses interval n pt)
    as (out & H & Q).
  eexists. split.
  - unfold round_robin_monitor. eapply io_bind_Returns; [reflexivity|exact H].
  - apply Forall_app. split; [by repeat constructor|done].
Qed.

(** The run in which one address is monitored, the first probe finds it
    alive and the interrupt arrives during the first sleep: the history
    holds one result for the address, and the output ends with the
    handler's message. *)
Lemma round_robin_monitor_interrupt_in_first_sleep :
  round_robin_monitor (fun _ _ => Completed 0) (fun _ => "2024-01-01 00:00:00")
    ["8.8.8.8"] 10 3 1 0 DuringSleep
  = (Raises (SystemExit 0),
     [MonitorBanner 1 10 3 1; CheckingLine 1; ProgressIndex 1 1;
      PingProgress "8.8.8.8" true "Alive";
      RoundRobinHeader "2024-01-01 00:00:00";
      ResultRow true "8.8.8.8" true "Alive"; StatusLine 1 1 100;
      NextCheckLine 10 1; MonitoringStopped])
  /\ history_after (fun _ _ => Completed 0) (fun _ => "2024-01-01 00:00:00")
       ["8.8.8.8"] 10 1 !!! "8.8.8.8" = [true].
Proof. split; vm_compute; reflexivity. Qed.

Lemma filter_imap_other {A} (f : nat -> string -> A * string) (addr : string) l :
  (forall i ip, (f i ip).2 = ip) -> addr ∉ l ->
  filter (fun e : A * string => e.2 = addr) (imap f l) = [].
Proof.
  revert f. induction l as [|x l IH]; intros f Hf Hl; [done|].
  rewrite imap_cons, filter_cons.
  apply not_elem_of_cons in Hl as [Hx Hl].
  rewrite decide_False by (rewrite Hf; congruence).
  apply IH; [|done]. intros i ip. apply Hf.
Qed.

Lemma filter_entries_once l1 l2 addr :
  addr ∉ l1 -> addr ∉ l2 ->
  filter (fun e : nat * string => e.2 = addr) (entries (l1 ++ addr :: l2))
  = [(length l1, addr)].
Proof.
  intros H1 H2. unfold entries. rewrite imap_app, filter_app.
  rewrite filter_imap_other by done.
  rewrite imap_cons, filter_cons. rewrite decide_True by done.
  rewrite filter_imap_other by done.
  simpl. by rewrite Nat.add_0_r.
Qed.

Lemma outcomes_iter_once ran l1 l2 addr n c :
  addr ∉ l1 -> addr ∉ l2 ->
  outcomes_iter ran (l1 ++ addr :: l2) n c addr
  = map (fun k => alive_at ran k (length l1) addr) (seqZ (c + 1) (Z.of_nat n)).
Proof.
  intros H1 H2. revert c. induction n as [|n IH]; intros c; [done|].
  cbn [outcomes_iter]. rewrite IH. unfold cycle_outcomes.
  rewrite filter_entries_once by done.
  rewrite (seqZ_cons (c + 1)) by lia. simpl.
  do 3 f_equal; lia.
Qed.

(** C2, as the code has it.  The window of every address has at most 10
    entries after any number of passes, for every address list.  For an
    address that occurs once in the list, the window after [n] passes holds
    the last 10 of its results of passes 1 to [n], oldest first; after 15
    passes these are the results of passes 6 to 15. *)
Theorem history_window_bounded_fifo
    (ran : Z -> nat -> run_result) (now : Z -> string) (interval : Z)
    (ip_addresses l1 l2 : list string) (addr : string) :
  addr ∉ l1 -> addr ∉ l2 ->
  (forall n a,
     (length (history_after ran now ip_addresses interval n !!! a) <= 10)%nat)
  /\ (forall n,
        history_after ran now (l1 ++ addr :: l2) interval n !!! addr
        = last_n 10 (map (fun c => alive_at ran c (length l1) addr)
                         (seqZ 1 (Z.of_nat n))))
  /\ history_after ran now (l1 ++ addr :: l2) interval 15 !!! addr
     = map (fun c => alive_at ran c (length l1) addr) (seqZ 6 10)
  /\ length (history_after ran now (l1 ++ addr :: l2) interval 15 !!! addr)
     = 10%nat.
Proof.
  intros H1 H2.
  assert (Hwin : forall n,
    history_after ran now (l1 ++ addr :: l2) interval n !!! addr
    = last_n 10 (map (fun c => alive_at ran c (length l1) addr)
                     (seqZ 1 (Z.of_nat n)))).
  { intros n. rewrite history_after_iter, history_iter_lookup.
    rewrite initial_history_lookup, fold_record_result by (simpl; lia).
    by rewrite outcomes_iter_once. }
  assert (H15 : history_after ran now (l1 ++ addr :: l2) interval 15 !!! addr
                = map (fun c => alive_at ran c (length l1) addr) (seqZ 6 10)).
  { rewrite Hwin. reflexivity. }
  split; [|split; [done|split; [done|]]].
  - intros n a. rewrite history_after_iter.
    apply history_iter_bounded. intros a'. rewrite initial_history_lookup.
    simpl. lia.
  - rewrite H15. reflexivity.
Qed.

Lemma history_window_bounded_fifo_witness :
  ("10.0.0.1" ∉ ["10.0.0.9"])
  /\ ("10.0.0.1" ∉ ["10.0.0.2"])
  /\ history_after (fun c _ => if c <=? 10 then Completed 0 else Completed 1)
       (fun _ => "") (["10.0.0.9"] ++ "10.0.0.1" :: ["10.0.0.2"]) 10 15
     !!! "10.0.0.1"
     = map (fun c => alive_at
                       (fun c _ => if c <=? 10 then Completed 0 else Completed 1)
                       c (length ["10.0.0.9"]) "10.0.0.1")
           (seqZ 6 10).
Proof.
  assert (H1 : "10.0.0.1" ∉ ["10.0.0.9"]).
  { intros H%list_elem_of_singleton. discriminate H. }
  assert (H2 : "10.0.0.1" ∉ ["10.0.0.2"]).
  { intros H%list_elem_of_singleton. discriminate H. }
  split; [exact H1|]. split; [exact H2|].
  exact (proj1 (proj2 (proj2
    (history_window_bounded_fifo
       (fun c _ => if c <=? 10 then Completed 0 else Completed 1)
       (fun _ => "") 10 [] ["10.0.0.9"] ["10.0.0.2"] "10.0.0.1" H1 H2)))).
Defined.

(** C2 as stated fails for an address that is listed twice: it gets two
    entries per pass, so after 15 passes its window holds the results of
    passes 11 to 15, not those of passes 6 to 15.  Here the address is
    alive up to pass 10 and dead afterwards. *)
Lemma history_window_of_repeated_address :
  let ran := fun (c : Z) (_ : nat) =>
               if c <=? 10 then Completed 0 else Completed 1 in
  let window :=
    history_after ran (fun _ => "") ["10.0.0.1"; "10.0.0.1"] 10 15
    !!! "10.0.0.1" in
  window = [false; false; false; false; false; false; false; false; false; false]
  /\ window <> map (fun c => alive_at ran c 0 "10.0.0.1") (seqZ 6 10)
  /\ window <> map (fun c => alive_at ran c 1 "10.0.0.1") (seqZ 6 10).
Proof. split; [|split]; vm_compute; [reflexivity|discriminate..]. Qed.

(** * Further properties *)

(** ** More of [expand_ip_range] *)

Lemma IPv4Address_no_dash a x : IPv4Address a = Returns x -> contains "-" a = false.
Proof.
  intros H. destruct (contains "-" a) eqn:Hc; [|done].
  pose proof (IPv4Address_bad_char "-" a eq_refl ltac:(done) Hc) as Hr.
  by rewrite H in Hr.
Qed.

Lemma expand_ip_range_single a x :
  IPv4Address a = Returns x -> expand_ip_range a = (Returns [a], []).
Proof.
  intros Ha. unfold expand_ip_range, expand_ip_range_try.
  rewrite (IPv4Address_no_slash _ _ Ha), (IPv4Address_no_dash _ _ Ha), Ha.
  reflexivity.
Qed.

(** X1.  A text that is one valid address expands to the one-element list
    holding that same text, and nothing is printed. *)
Theorem expand_single_address (a : string) (x : Z) :
  IPv4Address a = Returns x ->
  expand_ip_range a = (Returns [a], []).
Proof. apply expand_ip_range_single. Qed.

Lemma expand_single_address_witness :
  IPv4Address "8.8.8.8" = Returns 134744072
  /\ expand_ip_range "8.8.8.8" = (Returns ["8.8.8.8"], []).
Proof.
  split; [vm_compute; reflexivity|].
  apply (expand_single_address "8.8.8.8" 134744072). vm_compute; reflexivity.
Defined.

Lemma _string_from_ip_int_inj x y :
  is_ip_int x -> is_ip_int y ->
  _string_from_ip_int x = _string_from_ip_int y -> x = y.
Proof.
  intros Hx Hy Heq.
  pose proof (IPv4Address_string_from_ip_int x Hx) as H1.
  pose proof (IPv4Address_string_from_ip_int y Hy) as H2.
  rewrite Heq in H1. congruence.
Qed.

Lemma NoDup_map_string l :
  Forall is_ip_int l -> NoDup l -> NoDup (map _string_from_ip_int l).
Proof.
  intros Hall Hnd. induction Hnd as [|x l Hx Hnd IH]; [constructor|].
  apply Forall_cons in Hall as [Hxr Hall]. simpl. constructor; [|by apply IH].
  intros Hin. apply list_elem_of_fmap in Hin as (y & Heq & Hy).
  rewrite Forall_forall in Hall.
  apply _string_from_ip_int_inj in Heq; [|done|by apply Hall]. by subst.
Qed.

(** X2.  A range text [a-b] whose endpoints (with surrounding blanks
    removed) are addresses [start_ip <= end_ip], with [end_ip] below
    255.255.255.255, expands without any output to
    [end_ip - start_ip + 1] texts, all different, whose numeric values are
    [start_ip, start_ip + 1, ..., end_ip] in this order. *)
Theorem expand_range_ascending (a b : string) (start_ip end_ip : Z) :
  contains "-" a = false ->
  contains "/" (a +:+ "-" +:+ b) = false ->
  IPv4Address (strip a) = Returns start_ip ->
  IPv4Address (strip b) = Returns end_ip ->
  start_ip <= end_ip -> end_ip < _ALL_ONES ->
  exists ips,
    expand_ip_range (a +:+ "-" +:+ b) = (Returns ips, [])
    /\ Z.of_nat (length ips) = end_ip - start_ip + 1
    /\ NoDup ips
    /\ numeric ips = Returns (seqZ start_ip (end_ip - start_ip + 1)).
Proof.
  intros Ha Hs Hst Hen Hle Htop.
  pose proof (IPv4Address_is_ip_int _ _ Hst) as [H0 _].
  assert (Hall : Forall is_ip_int (seqZ start_ip (end_ip - start_ip + 1))).
  { apply Forall_forall. intros y Hy%elem_of_seqZ. unfold is_ip_int. lia. }
  exists (map _string_from_ip_int (seqZ start_ip (end_ip - start_ip + 1))).
  split; [by apply expand_range_below_top|].
  split; [rewrite length_map, length_seqZ; lia|].
  split; [apply NoDup_map_string; [done|apply NoDup_seqZ]|].
  by apply numeric_map_string.
Qed.

Lemma expand_range_ascending_witness :
  contains "-" "10.0.0.5 " = false
  /\ contains "/" ("10.0.0.5 " +:+ "-" +:+ " 10.0.0.7") = false
  /\ IPv4Address (strip "10.0.0.5 ") = Returns 167772165
  /\ IPv4Address (strip " 10.0.0.7") = Returns 167772167
  /\ 167772165 <= 167772167 /\ 167772167 < _ALL_ONES
  /\ exists ips,
       expand_ip_range ("10.0.0.5 " +:+ "-" +:+ " 10.0.0.7") = (Returns ips, [])
       /\ Z.of_nat (length ips) = 167772167 - 167772165 + 1
       /\ NoDup ips
       /\ numeric ips = Returns (seqZ 167772165 (167772167 - 167772165 + 1)).
Proof.
  split; [reflexivity|]. split; [reflexivity|].
  split; [vm_compute; reflexivity|]. split; [vm_compute; reflexivity|].
  split; [lia|]. split; [reflexivity|].
  apply (expand_range_ascending "10.0.0.5 " " 10.0.0.7" 167772165 167772167);
    try reflexivity; try (vm_compute; reflexivity); lia.
Defined.

(** X3.  A range text whose end is 255.255.255.255 expands to the empty
    list, with one error line, whatever its valid start: the loop steps
    past the last address and the handler swallows the error. *)
Theorem expand_range_ending_at_last_address (a b : string) (start_ip : Z) :
  contains "-" a = false ->
  contains "/" (a +:+ "-" +:+ b) = false ->
  IPv4Address (strip a) = Returns start_ip ->
  IPv4Address (strip b) = Returns _ALL_ONES ->
  expand_ip_range (a +:+ "-" +:+ b)
  = (Returns [], [ErrorParsingRange (a +:+ "-" +:+ b) AddressValueError]).
Proof. apply expand_range_at_top. Qed.

Lemma expand_range_ending_at_last_address_witness :
  contains "-" "255.255.255.253" = false
  /\ contains "/" ("255.255.255.253" +:+ "-" +:+ "255.255.255.255") = false
  /\ IPv4Address (strip "255.255.255.253") = Returns 4294967293
  /\ IPv4Address (strip "255.255.255.255") = Returns _ALL_ONES
  /\ expand_ip_range ("255.255.255.253" +:+ "-" +:+ "255.255.255.255")
     = (Returns [],
        [ErrorParsingRange ("255.255.255.253" +:+ "-" +:+ "255.255.255.255")
           AddressValueError]).
Proof.
  split; [reflexivity|]. split; [reflexivity|].
  split; [vm_compute; reflexivity|]. split; [vm_compute; reflexivity|].
  apply (expand_range_ending_at_last_address "255.255.255.253"
           "255.255.255.255" 4294967293);
    try reflexivity; vm_compute; reflexivity.
Defined.

(** X4.  A text that holds both a slash and a dash is never expanded: it
    is read as a CIDR block, the dash spoils it, and the call returns the
    empty list with one error line. *)
Theorem expand_slash_and_dash (s : string) :
  contains "/" s = true -> contains "-" s = true ->
  exists e, expand_ip_range s = (Returns [], [ErrorParsingRange s e]).
Proof.
  intros Hs Hd.
  pose proof (IPv4Network_with_dash s false Hd) as Hn.
  destruct (expand_ip_range_try s) as [l|e] eqn:Htry.
  - rewrite expand_ip_range_try_cidr in Htry by done.
    by destruct (IPv4Network s false).
  - exists e. by apply expand_ip_range_raising.
Qed.

Lemma expand_slash_and_dash_witness :
  contains "/" "10.0.0.1-10.0.0.9/24" = true
  /\ contains "-" "10.0.0.1-10.0.0.9/24" = true
  /\ exists e,
       expand_ip_range "10.0.0.1-10.0.0.9/24"
       = (Returns [], [ErrorParsingRange "10.0.0.1-10.0.0.9/24" e]).
Proof.
  split; [reflexivity|]. split; [reflexivity|].
  apply (expand_slash_and_dash "10.0.0.1-10.0.0.9/24"); reflexivity.
Defined.

(** ** More of the CIDR branch *)

(** X5.  For every valid CIDR text the call prints nothing and returns a
    non-empty list of different address texts; each is the text of an
    address of that network (masking it with the netmask gives the network
    address).  For a prefix length [p] of at most 30 there are
    [2^(32-p) - 2] of them. *)
Theorem expand_cidr_members (s : string) (nw : IPv4Network_obj) :
  contains "/" s = true ->
  IPv4Network s false = Returns nw ->
  exists hs,
    expand_ip_range s = (Returns (map _string_from_ip_int hs), [])
    /\ hs <> []
    /\ NoDup (map _string_from_ip_int hs)
    /\ numeric (map _string_from_ip_int hs) = Returns hs
    /\ Forall (fun y => Z.land y (netmask nw) = network_address nw) hs
    /\ (_prefixlen nw <= 30 ->
        Z.of_nat (length hs) = 2 ^ (32 - _prefixlen nw) - 2).
Proof.
  intros Hs Hnw.
  destruct (IPv4Network_inv _ _ Hnw) as (a & marg & x & p & _ & Hx & _ & Hp & ->).
  pose proof (IPv4Address_is_ip_int _ _ Hx) as Hxr.
  destruct (hosts_spec a x p Hx Hp) as [_ Hh].
  destruct (hosts_of_spec x p Hxr Hp) as (Hne & Hnd & Hin & Hlen).
  set (net := Z.land x (_ip_int_from_prefix p)) in *.
  assert (Hall : Forall (fun y => is_ip_int y
                   /\ Z.land y (_ip_int_from_prefix p) = net) (hosts_of net p)).
  { eapply Forall_impl; [exact Hin|]. intros y Hy. by apply host_in_network. }
  apply Forall_and in Hall as [Hall1 Hall2].
  exists (hosts_of net p). cbn [netmask network_address _prefixlen].
  split.
  { unfold expand_ip_range. rewrite expand_ip_range_try_cidr by done.
    rewrite Hnw. cbn [mbind outcome_bind]. fold net. rewrite Hh. done. }
  split; [done|]. split; [by apply NoDup_map_string|].
  split; [by apply numeric_map_string|]. split; [done|].
  intros Hle. rewrite Hlen by done. reflexivity.
Qed.

Lemma expand_cidr_members_witness :
  contains "/" "10.1.2.3/29" = true
  /\ IPv4Network "10.1.2.3/29" false
     = Returns {| network_address := 167838208; netmask := 4294967288;
                  _prefixlen := 29; addr := "10.1.2.3" |}
  /\ exists hs,
       expand_ip_range "10.1.2.3/29" = (Returns (map _string_from_ip_int hs), [])
       /\ hs <> []
       /\ NoDup (map _string_from_ip_int hs)
       /\ numeric (map _string_from_ip_int hs) = Returns hs
       /\ Forall (fun y => Z.land y 4294967288 = 167838208) hs
       /\ (29 <= 30 -> Z.of_nat (length hs) = 2 ^ (32 - 29) - 2).
Proof.
  split; [reflexivity|]. split; [vm_compute; reflexivity|].
  apply (expand_cidr_members "10.1.2.3/29"
           {| network_address := 167838208; netmask := 4294967288;
              _prefixlen := 29; addr := "10.1.2.3" |});
    [reflexivity|vm_compute; reflexivity].
Defined.

Lemma mask_text_ok_all : forallb mask_text_ok (seqZ 0 33) = true.
Proof. vm_compute. reflexivity. Qed.

Lemma mask_texts p :
  is_prefixlen p ->
  _make_netmask (MaskStr (str_of_int p)) = Returns (_ip_int_from_prefix p, p)
  /\ _make_netmask (MaskStr (_string_from_ip_int (_ip_int_from_prefix p)))
     = Returns (_ip_int_from_prefix p, p)
  /\ (1 <= p <= 31 ->
      _make_netmask
        (MaskStr (_string_from_ip_int (Z.lxor (_ip_int_from_prefix p) _ALL_ONES)))
      = Returns (_ip_int_from_prefix p, p)).
Proof.
  unfold is_prefixlen, _max_prefixlen, IPV4LENGTH. intros Hp.
  pose proof mask_text_ok_all as Hall. rewrite forallb_forall in Hall.
  assert (Hin : In p (seqZ 0 33)) by (apply list_elem_of_In, elem_of_seqZ; lia).
  apply Hall in Hin. unfold mask_text_ok in Hin.
  apply andb_prop in Hin as [Hin H3]. apply andb_prop in Hin as [H1 H2].
  assert (Hsame : forall c : outcome (Z * Z),
    match c with
    | Returns (nm, q) => (nm =? _ip_int_from_prefix p) && (q =? p)
    | Raises _ => false
    end = true -> c = Returns (_ip_int_from_prefix p, p)).
  { intros [[nm q]|e] H; [|done]. apply andb_prop in H as [Ha Hb].
    apply Z.eqb_eq in Ha, Hb. by subst. }
  split; [by apply Hsame|]. split; [by apply Hsame|].
  intros Hr. apply Hsame.
  destruct (1 <=? p) eqn:E1; [|lia]. destruct (p <=? 31) eqn:E2; [|lia]. done.
Qed.

(** X6.  The mask of a CIDR text may be written as a prefix length, as
    a dotted netmask or (for lengths 1 to 31) as a dotted hostmask: the
    three spellings of the same block expand to the same list. *)
Theorem expand_cidr_mask_spellings (a : string) (x p : Z) :
  IPv4Address a = Returns x ->
  is_prefixlen p ->
  let by_length := a +:+ "/" +:+ str_of_int p in
  let by_netmask := a +:+ "/" +:+ _string_from_ip_int (_ip_int_from_prefix p) in
  let by_hostmask :=
    a +:+ "/" +:+ _string_from_ip_int (Z.lxor (_ip_int_from_prefix p) _ALL_ONES) in
  expand_ip_range by_netmask = expand_ip_range by_length
  /\ (1 <= p <= 31 -> expand_ip_range by_hostmask = expand_ip_range by_length).
Proof.
  intros Hx Hp. destruct (mask_texts p Hp) as (H1 & H2 & H3). cbv zeta.
  rewrite (expand_cidr_parts a _ x _ p Hx H1).
  rewrite (expand_cidr_parts a _ x _ p Hx H2).
  split; [done|]. intros Hr.
  by rewrite (expand_cidr_parts a _ x _ p Hx (H3 Hr)).
Qed.

Lemma expand_cidr_mask_spellings_witness :
  IPv4Address "192.168.1.9" = Returns 3232235785
  /\ is_prefixlen 29
  /\ _string_from_ip_int (_ip_int_from_prefix 29) = "255.255.255.248"
  /\ _string_from_ip_int (Z.lxor (_ip_int_from_prefix 29) _ALL_ONES) = "0.0.0.7"
  /\ expand_ip_range
       ("192.168.1.9" +:+ "/" +:+ _string_from_ip_int (_ip_int_from_prefix 29))
     = expand_ip_range ("192.168.1.9" +:+ "/" +:+ str_of_int 29)
  /\ (1 <= 29 <= 31 ->
      expand_ip_range
        ("192.168.1.9" +:+ "/"
         +:+ _string_from_ip_int (Z.lxor (_ip_int_from_prefix 29) _ALL_ONES))
      = expand_ip_range ("192.168.1.9" +:+ "/" +:+ str_of_int 29)).
Proof.
  assert (Hp : is_prefixlen 29) by (unfold is_prefixlen, _max_prefixlen, IPV4LENGTH; lia).
  split; [vm_compute; reflexivity|]. split; [exact Hp|].
  split; [vm_compute; reflexivity|]. split; [vm_compute; reflexivity|].
  apply (expand_cidr_mask_spellings "192.168.1.9" 3232235785 29);
    [vm_compute; reflexivity|exact Hp].
Defined.

(** ** More of [print_results] *)

Lemma string_leb_refl s : String.leb s s = true.
Proof. by destruct (String.leb_total s s). Qed.

Lemma insert_by_key_filter_address a x l :
  filter (fun r => address_of r = a) (insert_by_key address_of x l)
  = filter (fun r => address_of r = a) (x :: l).
Proof.
  induction l as [|y l IH]; [done|]. simpl.
  destruct (String.leb (address_of x) (address_of y)) eqn:Hxy; [done|].
  rewrite (filter_cons _ y), IH, !(filter_cons _ x), (filter_cons _ y).
  destruct (decide (address_of y = a)) as [Hy|Hy];
    destruct (decide (address_of x = a)) as [Hx|Hx]; try done.
  rewrite Hx, Hy, string_leb_refl in Hxy. done.
Qed.

Lemma list_sort_filter_address a l :
  filter (fun r => address_of r = a) (list_sort address_of l)
  = filter (fun r => address_of r = a) l.
Proof.
  induction l as [|x l IH]; [done|]. simpl.
  by rewrite insert_by_key_filter_address, !filter_cons, IH.
Qed.

Lemma print_results_list results show_summary round_robin timestamp :
  (print_results results show_summary round_robin timestamp).1
  = list_sort address_of results.
Proof. by destruct results. Qed.

(** X7.  The in-place sort of [print_results] is stable: the results of
    one address keep, in the caller's list after the call, the order they
    had before it. *)
Theorem print_results_sort_is_stable
    (results : list ProbeResult) (show_summary round_robin : bool)
    (timestamp a : string) :
  filter (fun r => address_of r = a)
    (print_results results show_summary round_robin timestamp).1
  = filter (fun r => address_of r = a) results.
Proof. rewrite print_results_list. apply list_sort_filter_address. Qed.

Lemma list_sort_nonempty (l : list ProbeResult) :
  l <> [] -> list_sort address_of l <> [].
Proof.
  intros Hl Hs. pose proof (list_sort_Permutation address_of l) as Hp.
  rewrite Hs in Hp. by apply Permutation_nil_l in Hp.
Qed.

(** X8.  Calling [print_results] a second time on the list the first call
    left behind prints the same lines and leaves the list as it is. *)
Theorem print_results_twice
    (results : list ProbeResult) (show_summary round_robin : bool)
    (timestamp : string) :
  let first := print_results results show_summary round_robin timestamp in
  print_results first.1 show_summary round_robin timestamp = first.
Proof.
  cbv zeta. rewrite print_results_list.
  destruct results as [|r results]; [done|].
  set (l := r :: results).
  pose proof (list_sort_nonempty l ltac:(done)) as Hne.
  pose proof (list_sort_id _ (list_sort_Sorted l)) as Hid.
  unfold print_results at 2. fold l.
  unfold print_results.
  destruct (list_sort address_of l) as [|r' l'] eqn:Hl; [done|].
  rewrite Hid. reflexivity.
Qed.

Lemma count_alive_bounds l : 0 <= count_alive l <= list_len l.
Proof.
  unfold count_alive, list_len.
  pose proof (length_filter (fun r : ProbeResult => is_alive_of r = true) l). lia.
Qed.

Lemma count_alive_all l :
  count_alive l = list_len l <-> Forall (fun r => is_alive_of r = true) l.
Proof.
  induction l as [|r l IH].
  - split; [constructor|done].
  - rewrite count_alive_cons, Forall_cons.
    pose proof (count_alive_bounds l) as Hb.
    replace (list_len (r :: l)) with (list_len l + 1)
      by (unfold list_len; simpl; lia).
    destruct (is_alive_of r).
    + rewrite <- IH. split; [intros; split; [done|lia]|intros [_ ->]; done].
    + split; [lia|]. by intros [? _].
Qed.

Lemma count_alive_none l :
  count_alive l = 0 <-> Forall (fun r => is_alive_of r = false) l.
Proof.
  induction l as [|r l IH].
  - split; [constructor|done].
  - rewrite count_alive_cons, Forall_cons.
    pose proof (count_alive_bounds l) as Hb.
    destruct (is_alive_of r).
    + split; [lia|]. by intros [? _].
    + rewrite <- IH. split; [done|by intros [_ ->]].
Qed.

Lemma success_rate_bounds a t :
  0 <= a <= t -> 0 < t ->
  (0 <= success_rate a t)%Q /\ (success_rate a t <= 100)%Q
  /\ ((success_rate a t == 100)%Q <-> a = t)
  /\ ((success_rate a t == 0)%Q <-> a = 0).
Proof.
  intros Ha Ht. destruct t as [|t|t]; try lia.
  unfold success_rate, Qle, Qeq, Qdiv, Qmult, Qinv, inject_Z. simpl.
  rewrite !Z.mul_1_r, !Pos.mul_1_r. lia.
Qed.

(** X9.  For a list that is not empty, the rate in the summary of
    [print_results] lies between 0 and 100; it is 100 exactly when every
    result is alive and 0 exactly when none is; the count of dead hosts is
    not negative. *)
Theorem print_results_rate_range
    (r : ProbeResult) (results : list ProbeResult) (timestamp : string) :
  let l := r :: results in
  let alive_count := count_alive l in
  let total_count := list_len l in
  let rate := success_rate alive_count total_count in
  In (SummaryLine alive_count total_count (total_count - alive_count))
     (print_results l true false timestamp).2.2
  /\ In (SuccessRateLine rate) (print_results l true false timestamp).2.2
  /\ In (StatusLine alive_count total_count rate)
        (print_results l true true timestamp).2.2
  /\ 0 <= total_count - alive_count
  /\ (0 <= rate)%Q /\ (rate <= 100)%Q
  /\ ((rate == 100)%Q <-> Forall (fun r => is_alive_of r = true) l)
  /\ ((rate == 0)%Q <-> Forall (fun r => is_alive_of r = false) l).
Proof.
  intros l alive_count total_count rate.
  pose proof (count_alive_bounds l) as Hb. fold alive_count total_count in Hb.
  assert (Ht : 0 < total_count) by (unfold total_count, list_len; simpl; lia).
  destruct (success_rate_bounds alive_count total_count Hb Ht)
    as (H0 & H100 & Hall & Hnone).
  pose proof (print_results_nonempty r results true false timestamp) as P1.
  pose proof (print_results_nonempty r results true true timestamp) as P2.
  fold l in P1, P2. rewrite P1, P2. unfold table_lines. cbn [snd].
  fold alive_count total_count rate.
  split; [apply in_or_app; right; by left|].
  split; [apply in_or_app; right; right; by left|].
  split; [apply in_or_app; right; by left|].
  split; [lia|]. split; [done|]. split; [done|].
  split.
  - etrans; [exact Hall|]. apply count_alive_all.
  - etrans; [exact Hnone|]. apply count_alive_none.
Qed.

(** ** More of the monitor *)

(** X10.  After any number of passes, for any address list (repeated
    addresses included), the window of an address holds the last 10 of all
    results recorded for it so far, oldest first: pass by pass, and within
    a pass in the order of its positions in the list. *)
Theorem history_window_is_last_ten
    (ran : Z -> nat -> run_result) (now : Z -> string) (interval : Z)
    (ip_addresses : list string) (n : nat) (addr : string) :
  history_after ran now ip_addresses interval n !!! addr
  = last_n 10 (outcomes_iter ran ip_addresses n 0 addr).
Proof.
  rewrite history_after_iter, history_iter_lookup.
  rewrite initial_history_lookup. by apply fold_record_result; simpl; lia.
Qed.

Lemma filter_imap_length {A} (f : nat -> string -> A * string) (addr : string) l :
  (forall i ip, (f i ip).2 = ip) ->
  length (filter (fun e : A * string => e.2 = addr) (imap f l))
  = length (filter (fun ip => ip = addr) l).
Proof.
  revert f. induction l as [|x l IH]; intros f Hf; [done|].
  rewrite imap_cons, !filter_cons, Hf.
  destruct (decide (x = addr)); simpl; rewrite IH; try done;
    intros i ip; apply Hf.
Qed.

Lemma cycle_outcomes_length ran c ips addr :
  Z.of_nat (length (cycle_outcomes ran c (entries ips) addr)) = occurrences addr ips.
Proof.
  unfold cycle_outcomes, entries, occurrences, list_len.
  by rewrite length_map, filter_imap_length.
Qed.

Lemma outcomes_iter_length ran ips n c addr :
  Z.of_nat (length (outcomes_iter ran ips n c addr))
  = Z.of_nat n * occurrences addr ips.
Proof.
  revert c. induction n as [|n IH]; intros c; [simpl; lia|].
  cbn [outcomes_iter]. rewrite length_app, Nat2Z.inj_add, IH.
  rewrite cycle_outcomes_length. lia.
Qed.

Lemma last_n_length_min {A} n (l : list A) :
  length (last_n n l) = Nat.min n (length l).
Proof. unfold last_n. rewrite length_drop. lia. Qed.

(** X11.  After [n] passes the window of an address that occurs [k]
    times in the address list holds [min(10, n * k)] entries; so the window
    of an address that is not monitored stays empty, and the window of a
    monitored address is full after [ceil(10 / k)] passes. *)
Theorem history_window_size
    (ran : Z -> nat -> run_result) (now : Z -> string) (interval : Z)
    (ip_addresses : list string) (n : nat) (addr : string) :
  Z.of_nat (length (history_after ran now ip_addresses interval n !!! addr))
  = Z.min 10 (Z.of_nat n * occurrences addr ip_addresses).
Proof.
  rewrite history_after_iter, history_iter_lookup, initial_history_lookup.
  rewrite fold_record_result by (simpl; lia). rewrite app_nil_l.
  rewrite last_n_length_min, Nat2Z.inj_min, outcomes_iter_length. done.
Qed.

Lemma initial_history_dom ips :
  dom (initial_history ips) = (list_to_set ips : gset string).
Proof.
  unfold initial_history. rewrite dom_list_to_map_L.
  f_equal. rewrite <- list_fmap_compose. apply list_fmap_id.
Qed.

Lemma fold_probe_step_dom ran c es acc :
  Forall (fun e : nat * string => e.2 ∈ dom acc.2) es ->
  dom (fold_left (probe_step ran c) es acc).2 = dom acc.2.
Proof.
  revert acc. induction es as [|e es IH]; intros acc Hes; [done|].
  apply Forall_cons in Hes as [He Hes]. cbn [fold_left].
  assert (Hd : dom (probe_step ran c acc e).2 = dom acc.2).
  { unfold probe_step. cbn [snd]. rewrite dom_insert_L.
    apply subseteq_union_1_L. by apply singleton_subseteq_l. }
  rewrite IH; [done|]. by rewrite Hd.
Qed.

Lemma entries_addresses ips :
  Forall (fun e : nat * string => e.2 ∈ ips) (entries ips).
Proof.
  apply Forall_forall. intros [i ip] He. unfold entries in He.
  apply list_elem_of_lookup in He as [j Hj]. rewrite list_lookup_imap in Hj.
  destruct (ips !! j) as [ip'|] eqn:Hip; [|done]. injection Hj as <- <-.
  by eapply list_elem_of_lookup_2.
Qed.

Lemma history_iter_dom ran ips n c history :
  dom history = (list_to_set ips : gset string) ->
  dom (history_iter ran ips n c history) = list_to_set ips.
Proof.
  revert c history. induction n as [|n IH]; intros c history Hd; [done|].
  cbn [history_iter]. apply IH. unfold history_step.
  rewrite fold_probe_step_dom; [done|]. cbn [snd]. rewrite Hd.
  eapply Forall_impl; [apply entries_addresses|]. intros e He.
  by apply elem_of_list_to_set.
Qed.

(** X12.  The keys of the history never change: after any number of
    passes they are exactly the addresses of the list, one window per
    address however often it is listed. *)
Theorem history_keys_are_the_addresses
    (ran : Z -> nat -> run_result) (now : Z -> string) (interval : Z)
    (ip_addresses : list string) (n : nat) :
  dom (history_after ran now ip_addresses interval n)
  = (list_to_set ip_addresses : gset string).
Proof.
  rewrite history_after_iter. apply history_iter_dom, initial_history_dom.
Qed.

Lemma record_result_nonempty window b : record_result window b <> [].
Proof.
  unfold record_result, list_len.
  destruct (Z.ltb_spec 10 (Z.of_nat (length (window ++ [b])))) as [Hlt|_].
  - destruct (window ++ [b])%list as [|x [|y l]] eqn:E; simpl in *; try lia. done.
  - by destruct window.
Qed.

Lemma fold_record_result_nonempty bs window :
  bs <> [] -> fold_left record_result bs window <> [].
Proof.
  destruct bs as [|b bs _] using rev_ind; [done|]. intros _.
  rewrite fold_left_app. simpl. apply record_result_nonempty.
Qed.

Lemma cycle_outcomes_nonempty ran c ips addr :
  addr ∈ ips -> cycle_outcomes ran c (entries ips) addr <> [].
Proof.
  intros Hin Hnil. apply (f_equal length) in Hnil.
  pose proof (cycle_outcomes_length ran c ips addr) as Hlen.
  rewrite Hnil in Hlen. unfold occurrences, list_len in Hlen.
  assert (Hf : addr ∈ filter (fun ip => ip = addr) ips) by by apply list_elem_of_filter.
  destruct (filter (fun ip => ip = addr) ips); [by apply elem_of_nil in Hf|].
  simpl in Hlen. lia.
Qed.

(** Every listed address has a result in its window once a pass has
    probed it. *)
Lemma history_step_nonempty ran ips c history addr :
  addr ∈ ips -> history_step ran ips c history !!! addr <> [].
Proof.
  intros Hin. unfold history_step. rewrite fold_probe_step_lookup.
  by apply fold_record_result_nonempty, cycle_outcomes_nonempty.
Qed.

Lemma sum_bools_fold l acc :
  fold_left (fun acc (b : bool) => acc + (if b then 1 else 0)) l acc
  = acc + sum_bools l.
Proof.
  unfold sum_bools. revert acc. induction l as [|b l IH]; intros acc; simpl; [lia|].
  rewrite IH, (IH (0 + _)). lia.
Qed.

Lemma sum_bools_bounds l : 0 <= sum_bools l <= list_len l.
Proof.
  induction l as [|b l IH]; [done|].
  unfold sum_bools in *. simpl. rewrite sum_bools_fold. unfold sum_bools.
  unfold list_len in *. simpl length. destruct b; lia.
Qed.

Lemma uptime_of_bounds w : w <> [] -> (0 <= uptime_of w)%Q /\ (uptime_of w <= 100)%Q.
Proof.
  intros Hw. unfold uptime_of.
  assert (0 < list_len w) by (destruct w; [done|unfold list_len; simpl; lia]).
  destruct (success_rate_bounds _ _ (sum_bools_bounds w) H) as (H0 & H1 & _).
  done.
Qed.

(** A loop without variables whose body returns on every element of the
    list prints the outputs of the elements one after the other. *)
Lemma for_each_unit_output {A} (body : unit -> A -> io unit) (outf : A -> list line) xs :
  Forall (fun x => body tt x = (Returns tt, outf x)) xs ->
  for_each xs tt body = (Returns tt, concat (map outf xs)).
Proof.
  induction 1 as [|x xs Hx _ IH]; [done|].
  cbn [for_each map concat]. by apply io_bind_Returns with (a := tt).
Qed.

Lemma uptime_statistics_lines ips c history :
  Forall (fun ip => history !!! ip <> []) ips ->
  uptime_statistics ips c history
  = (Returns tt,
     if c mod 10 =? 0
     then UptimeHeader (Z.min 10 c)
          :: map (fun ip => UptimeLine ip (uptime_of (history !!! ip))) ips
          ++ [BlankLine]
     else []).
Proof.
  intros Hne. unfold uptime_statistics, when. destruct (c mod 10 =? 0); [|done].
  assert (Hloop : for_each ips tt (uptime_line history)
                  = (Returns tt,
                     concat (map (fun ip =>
                       [UptimeLine ip (uptime_of (history !!! ip))]) ips))).
  { apply for_each_unit_output. eapply Forall_impl; [exact Hne|].
    intros ip Hip. cbv beta in Hip. unfold uptime_line, uptime_of.
    destruct (history !!! ip) as [|b w]; [congruence|].
    by rewrite percent_Returns by apply list_len_cons_nonzero. }
  assert (Hcat : forall l : list string,
    concat (map (fun ip => [UptimeLine ip (uptime_of (history !!! ip))]) l)
    = map (fun ip => UptimeLine ip (uptime_of (history !!! ip))) l).
  { induction l as [|x l IH]; [done|]. simpl. by rewrite IH. }
  rewrite Hcat in Hloop.
  erewrite io_bind_Returns; [|reflexivity|].
  2:{ eapply io_bind_Returns; [exact Hloop|reflexivity]. }
  reflexivity.
Qed.

Lemma probe_address_quiet ran ips c acc entry :
  exists out,
    probe_address ran ips c acc entry = (Returns (probe_step ran c acc entry), out)
    /\ Forall (fun l => is_uptime_line l = false) out.
Proof.
  destruct acc as [results history], entry as [i ip].
  eexists. split; [reflexivity|]. by repeat constructor.
Qed.

Lemma print_results_no_uptime results show_summary round_robin timestamp :
  exists out,
    (print_results results show_summary round_robin timestamp).2 = (Returns tt, out)
    /\ Forall (fun l => is_uptime_line l = false) out.
Proof.
  destruct results as [|r results].
  - exists [NoResults]. split; [done|]. by repeat constructor.
  - eexists. split; [apply print_results_nonempty|].
    unfold table_lines. apply Forall_app. split.
    + constructor; [by destruct round_robin|].
      apply Forall_forall. intros l Hl.
      apply list_elem_of_fmap in Hl as (x & -> & _). done.
    + destruct show_summary, round_robin; by repeat constructor.
Qed.

Lemma filter_none {A} (P : A -> Prop) `{!forall x, Decision (P x)} (l : list A) :
  Forall (fun x => ~ P x) l -> filter P l = [].
Proof.
  induction 1 as [|x l Hx _ IH]; [done|]. by rewrite filter_cons, decide_False.
Qed.

Lemma filter_all {A} (P : A -> Prop) `{!forall x, Decision (P x)} (l : list A) :
  Forall P l -> filter P l = l.
Proof.
  induction 1 as [|x l Hx _ IH]; [done|]. by rewrite filter_cons, decide_True, IH.
Qed.

(** X13.  From a state in which the keys of the history are the listed
    addresses (as line 283 sets it up and every pass keeps it), one pass of
    the monitor returns with the counter advanced by one.  It prints the
    uptime block exactly when the new counter is a multiple of 10: then the
    header, one uptime line for every element of the address list, computed
    from the window the pass has just updated, and a blank line.  Each of
    these percentages lies between 0 and 100. *)
Theorem uptime_block_every_tenth_pass
    (ran : Z -> nat -> run_result) (now : Z -> string)
    (ip_addresses : list string) (interval c : Z)
    (history : gmap string (list bool)) :
  dom history = (list_to_set ip_addresses : gset string) ->
  let check_count := c + 1 in
  let history' := history_step ran ip_addresses check_count history in
  exists out,
    cycle ran now ip_addresses interval (c, history)
    = (Returns (check_count, history'), out)
    /\ filter (fun l => is_uptime_line l = true) out
       = (if check_count mod 10 =? 0
          then UptimeHeader (Z.min 10 check_count)
               :: map (fun ip => UptimeLine ip (uptime_of (history' !!! ip)))
                    ip_addresses
               ++ [BlankLine]
          else [])
    /\ Forall (fun ip => (0 <= uptime_of (history' !!! ip))%Q
                         /\ (uptime_of (history' !!! ip) <= 100)%Q) ip_addresses.
Proof.
  intros _ check_count history'.
  assert (Hne : Forall (fun ip => history' !!! ip <> []) ip_addresses).
  { apply Forall_forall. intros ip Hip. by apply history_step_nonempty. }
  destruct (for_each_fold (fun l => is_uptime_line l = false)
              (probe_step ran check_count)
              (probe_address ran ip_addresses check_count)
              (take (length ip_addresses) (entries ip_addresses)) ([], history))
    as (out1 & H1 & Q1); [intros; apply probe_address_quiet|].
  change (for_each _ _ _)
    with (probe_addresses ran ip_addresses check_count (length ip_addresses)
            history) in H1.
  rewrite take_all_entries in H1.
  destruct (fold_left (probe_step ran check_count) (entries ip_addresses)
              ([], history)) as [results h'] eqn:Hfold.
  assert (Hh : h' = history') by (unfold history', history_step; by rewrite Hfold).
  subst h'.
  destruct (print_results_no_uptime results true true (now check_count))
    as (out2 & H2 & Q2).
  pose proof (uptime_statistics_lines ip_addresses check_count history' Hne) as H3.
  eexists. split; [|split].
  - unfold cycle. fold check_count.
    eapply io_bind_Returns; [reflexivity|].
    eapply io_bind_Returns; [exact H1|]. cbv beta iota.
    eapply io_bind_Returns; [exact H2|].
    eapply io_bind_Returns; [exact H3|].
    eapply io_bind_Returns; [reflexivity|]. reflexivity.
  - rewrite !filter_app.
    rewrite (filter_none _ [CheckingLine _]) by by repeat constructor.
    rewrite (filter_none _ out1)
      by (eapply Forall_impl; [exact Q1|]; intros l Hl; congruence).
    rewrite (filter_none _ out2)
      by (eapply Forall_impl; [exact Q2|]; intros l Hl; congruence).
    rewrite (filter_none _ [NextCheckLine _ _]) by by repeat constructor.
    rewrite filter_nil, !app_nil_l, !app_nil_r.
    destruct (check_count mod 10 =? 0); [|done].
    apply filter_all. constructor; [done|]. apply Forall_app. split.
    + apply Forall_forall. intros l Hl.
      apply list_elem_of_fmap in Hl as (x & -> & _). done.
    + by repeat constructor.
  - eapply Forall_impl; [exact Hne|]. intros ip Hip. by apply uptime_of_bounds.
Qed.

Lemma uptime_block_every_tenth_pass_witness :
  dom (initial_history ["8.8.8.8"; "1.1.1.1"])
  = (list_to_set ["8.8.8.8"; "1.1.1.1"] : gset string)
  /\ exists out,
       cycle (fun _ _ => Completed 0) (fun _ => "") ["8.8.8.8"; "1.1.1.1"] 5
         (9, initial_history ["8.8.8.8"; "1.1.1.1"])
       = (Returns
            (9 + 1,
             history_step (fun _ _ => Completed 0) ["8.8.8.8"; "1.1.1.1"] (9 + 1)
               (initial_history ["8.8.8.8"; "1.1.1.1"])), out)
       /\ filter (fun l => is_uptime_line l = true) out
          = (if (9 + 1) mod 10 =? 0
             then UptimeHeader (Z.min 10 (9 + 1))
                  :: map (fun ip =>
                            UptimeLine ip
                              (uptime_of
                                 (history_step (fun _ _ => Completed 0)
                                    ["8.8.8.8"; "1.1.1.1"] (9 + 1)
                                    (initial_history ["8.8.8.8"; "1.1.1.1"])
                                  !!! ip)))
                       ["8.8.8.8"; "1.1.1.1"]
                  ++ [BlankLine]
             else [])
       /\ Forall (fun ip =>
                    (0 <= uptime_of
                            (history_step (fun _ _ => Completed 0)
                               ["8.8.8.8"; "1.1.1.1"] (9 + 1)
                               (initial_history ["8.8.8.8"; "1.1.1.1"]) !!! ip))%Q
                    /\ (uptime_of
                          (history_step (fun _ _ => Completed 0)
                             ["8.8.8.8"; "1.1.1.1"] (9 + 1)
                             (initial_history ["8.8.8.8"; "1.1.1.1"]) !!! ip)
                        <= 100)%Q) ["8.8.8.8"; "1.1.1.1"].
Proof.
  assert (Hkeys : dom (initial_history ["8.8.8.8"; "1.1.1.1"])
                  = (list_to_set ["8.8.8.8"; "1.1.1.1"] : gset string))
    by (vm_compute; reflexivity).
  split; [exact Hkeys|].
  apply (uptime_block_every_tenth_pass (fun _ _ => Completed 0) (fun _ => "")
           ["8.8.8.8"; "1.1.1.1"] 5 9 (initial_history ["8.8.8.8"; "1.1.1.1"]) Hkeys).
Defined.

(** ** What [expand_ip_range] returns is made of addresses *)

Lemma hosts_of_is_ip_int x p :
  is_ip_int x -> is_prefixlen p ->
  Forall is_ip_int (hosts_of (Z.land x (_ip_int_from_prefix p)) p).
Proof.
  intros Hx Hp. destruct (hosts_of_spec x p Hx Hp) as (_ & _ & Hin & _).
  eapply Forall_impl; [exact Hin|]. intros y Hy.
  by apply (host_in_network x p y).
Qed.

Lemma expand_ip_range_try_numbers s l :
  expand_ip_range_try s = Returns l ->
  l = [s] /\ is_Returns (IPv4Address s) = true
  \/ exists ns, l = map _string_from_ip_int ns /\ Forall is_ip_int ns.
Proof.
  unfold expand_ip_range_try. destruct (contains "/" s) eqn:Hs.
  { destruct (IPv4Network s false) as [nw|e] eqn:Hnw; [|done].
    destruct (IPv4Network_inv _ _ Hnw) as (a & marg & x & p & _ & Hx & _ & Hp & ->).
    pose proof (IPv4Address_is_ip_int _ _ Hx) as Hxr.
    destruct (hosts_spec a x p Hx Hp) as [_ Hh].
    cbn [mbind outcome_bind]. rewrite Hh. cbn [mbind outcome_bind].
    intros [= <-]. right. eexists. split; [done|]. by apply hosts_of_is_ip_int. }
  destruct (contains "-" s) eqn:Hd.
  { destruct (split1 "-" s) as [|a [|b [|? ?]]]; try done.
    destruct (IPv4Address (strip a)) as [x|e] eqn:Hx; [|done].
    destruct (IPv4Address (strip b)) as [y|e] eqn:Hy; [|done].
    cbn [mbind outcome_bind].
    destruct (Z.ltb_spec y x) as [|Hle]; [done|].
    pose proof (IPv4Address_is_ip_int _ _ Hx) as [Hx0 Hx1].
    pose proof (IPv4Address_is_ip_int _ _ Hy) as [Hy0 Hy1].
    destruct (Z.eq_dec y _ALL_ONES) as [->|Hny].
    - by rewrite range_loop_at_top.
    - rewrite range_loop_below_top by lia. intros [= <-]. right.
      eexists. split; [done|]. apply Forall_forall.
      intros z Hz%elem_of_seqZ. unfold is_ip_int. lia. }
  destruct (IPv4Address s) as [x|e] eqn:Hx; [|done].
  intros [= <-]. by left.
Qed.

(** X14.  Whatever [expand_ip_range] returns, every text in the returned
    list is a valid single address, and expanding that text again gives the
    one-element list holding it. *)
Theorem expand_returns_addresses (s : string) (ips : list string) (out : list line) :
  expand_ip_range s = (Returns ips, out) ->
  Forall (fun ip => is_Returns (IPv4Address ip) = true
                    /\ expand_ip_range ip = (Returns [ip], [])) ips.
Proof.
  unfold expand_ip_range.
  destruct (expand_ip_range_try s) as [l|e] eqn:Htry.
  - intros [= <- <-].
    destruct (expand_ip_range_try_numbers _ _ Htry) as [[-> Hs]|(ns & -> & Hns)].
    + constructor; [|constructor]. split; [done|].
      destruct (IPv4Address s) as [x|] eqn:Hx; [|done].
      by eapply expand_ip_range_single.
    + apply Forall_forall. intros ip Hip.
      apply list_elem_of_fmap in Hip as (y & -> & Hy).
      rewrite Forall_forall in Hns.
      pose proof (IPv4Address_string_from_ip_int y (Hns y Hy)) as Hp.
      split; [by rewrite Hp|]. by eapply expand_ip_range_single.
  - destruct (is_Exception e); intros [= <- <-]; constructor.
Qed.

Lemma expand_returns_addresses_witness :
  expand_ip_range "10.0.0.9/30" = (Returns ["10.0.0.9"; "10.0.0.10"], [])
  /\ Forall (fun ip => is_Returns (IPv4Address ip) = true
                       /\ expand_ip_range ip = (Returns [ip], []))
       ["10.0.0.9"; "10.0.0.10"].
Proof.
  split; [vm_compute; reflexivity|].
  apply (expand_returns_addresses "10.0.0.9/30" ["10.0.0.9"; "10.0.0.10"] []).
  vm_compute; reflexivity.
Defined.

(** ** [read_ips_from_file] *)

Lemma expand_ip_range_Returns s :
  exists out, expand_ip_range s = (Returns (expanded s), out).
Proof.
  unfold expanded. destruct (expand_ip_range_try s) as [l|e] eqn:Htry.
  - unfold expand_ip_range. rewrite Htry. by eexists.
  - rewrite (expand_ip_range_raising _ _ Htry). by eexists.
Qed.

Lemma read_line_targets ips line :
  exists out, read_line ips line = (Returns (ips ++ line_targets line)%list, out).
Proof.
  unfold read_line, line_targets, skipped_line, is_range_text.
  destruct (String.eqb (strip line) ""); simpl.
  { exists []. by rewrite app_nil_r. }
  destruct (startswith "#" (strip line)); simpl.
  { exists []. by rewrite app_nil_r. }
  destruct (contains "/" (strip line) || contains "-" (strip line)).
  - destruct (expand_ip_range_Returns (strip line)) as [out Hexp].
    exists out. rewrite Hexp. simpl. by rewrite app_nil_r.
  - by exists [].
Qed.

Lemma read_lines_targets lines ips :
  exists out,
    for_each lines ips read_line
    = (Returns (ips ++ concat (map line_targets lines))%list, out).
Proof.
  revert ips. induction lines as [|line lines IH]; intros ips.
  - exists []. simpl. by rewrite app_nil_r.
  - destruct (read_line_targets ips line) as [out1 H1].
    destruct (IH (ips ++ line_targets line)%list) as [out2 H2].
    exists (out1 ++ out2)%list. cbn [for_each map concat].
    rewrite app_assoc. by apply io_bind_Returns with (a := (ips ++ line_targets line)%list).
Qed.

(** X15.  Reading a file that can be read never ends the program: the
    call returns, in the order of the file, the addresses each line stands
    for.  A blank line or a line that starts with [#] stands for none, a
    line with a slash or a dash for what [expand_ip_range] returns for it
    (nothing when it is malformed), and any other line for its own text
    without surrounding blanks. *)
Theorem read_ips_from_file_by_line (lines : list string) (filename : string) :
  exists out,
    read_ips_from_file (Opened lines) filename
    = (Returns (concat (map line_targets lines)), out).
Proof.
  destruct (read_lines_targets lines []) as [out H].
  exists (map Core out). unfold read_ips_from_file. by rewrite H.
Qed.

Lemma contains_lstrip c s : contains c s = false -> contains c (lstrip s) = false.
Proof.
  induction s as [|a s IH]; [done|]. simpl.
  destruct (isspace_char a); [|done].
  destruct (Ascii.eqb a c); [done|]. apply IH.
Qed.

Lemma contains_rstrip c s : contains c s = false -> contains c (rstrip s) = false.
Proof.
  induction s as [|a s IH]; [done|]. simpl.
  destruct (Ascii.eqb a c) eqn:Hac; [done|]. intros Hs. specialize (IH Hs).
  destruct (rstrip s) as [|b r] eqn:Hr.
  - destruct (isspace_char a); [done|]. simpl. by rewrite Hac.
  - cbn [contains]. rewrite Hac. exact IH.
Qed.

Lemma contains_strip c s : contains c s = false -> contains c (strip s) = false.
Proof. intros H. unfold strip. by apply contains_rstrip, contains_lstrip. Qed.

Lemma read_lines_plain lines ips :
  Forall (fun line => is_range_text line = false) lines ->
  for_each lines ips read_line
  = (Returns (ips ++ filter (fun l => skipped_line l = false) (map strip lines))%list,
     []).
Proof.
  intros Hall. revert ips. induction Hall as [|line lines Hl _ IH]; intros ips.
  - simpl. by rewrite app_nil_r.
  - cbn [for_each map]. rewrite filter_cons.
    assert (Hstep : read_line ips line
              = (Returns (ips ++ (if skipped_line (strip line) then []
                                  else [strip line]))%list, [])).
    { unfold read_line, skipped_line, is_range_text in *.
      apply orb_false_elim in Hl as [H1 H2].
      rewrite (contains_strip _ _ H1), (contains_strip _ _ H2).
      destruct (String.eqb (strip line) ""); simpl; [by rewrite app_nil_r|].
      destruct (startswith "#" (strip line)); simpl; [by rewrite app_nil_r|done]. }
    erewrite io_bind_Returns; [|exact Hstep|apply IH].
    destruct (skipped_line (strip line)) eqn:Hsk.
    + rewrite decide_False by congruence. by rewrite app_nil_r.
    + rewrite decide_True by done. by rewrite <- app_assoc.
Qed.

(** X16.  A file in which no line holds a slash or a dash is returned as
    it is, line by line without surrounding blanks, minus the blank lines
    and the lines that start with [#]: nothing is printed and no line is
    checked for being an address. *)
Theorem read_ips_from_file_plain_lines (lines : list string) (filename : string) :
  Forall (fun line => is_range_text line = false) lines ->
  read_ips_from_file (Opened lines) filename
  = (Returns (filter (fun l => skipped_line l = false) (map strip lines)), []).
Proof.
  intros Hall. unfold read_ips_from_file.
  by rewrite (read_lines_plain lines [] Hall).
Qed.

Lemma read_ips_from_file_plain_lines_witness :
  Forall (fun line => is_range_text line = false)
    ["# dns"; " 8.8.8.8 "; ""; "not an address"]
  /\ read_ips_from_file (Opened ["# dns"; " 8.8.8.8 "; ""; "not an address"])
       "targets.txt"
     = (Returns ["8.8.8.8"; "not an address"], []).
Proof.
  assert (H : Forall (fun line => is_range_text line = false)
                ["# dns"; " 8.8.8.8 "; ""; "not an address"])
    by (repeat constructor).
  split; [exact H|].
  exact (read_ips_from_file_plain_lines
           ["# dns"; " 8.8.8.8 "; ""; "not an address"] "targets.txt" H).
Defined.

(** ** [main] *)

Lemma mio_bind_Returns {A B} (c : mio A) (f : A -> mio B) a out1 r out2 :
  c = (Returns a, out1) -> f a = (r, out2) ->
  c ≫= f = (r, (out1 ++ out2)%list).
Proof. intros -> Hf. unfold mbind, mio_bind. by rewrite Hf. Qed.

Lemma mio_bind_Raises {A B} (c : mio A) (f : A -> mio B) e out :
  c = (Raises e, out) -> c ≫= f = (Raises e, out).
Proof. by intros ->. Qed.

Lemma add_argument_targets ips ip_arg :
  exists out,
    add_argument ips ip_arg = (Returns (ips ++ argument_targets ip_arg)%list, out).
Proof.
  unfold add_argument, argument_targets, is_range_text.
  destruct (contains "/" ip_arg || contains "-" ip_arg); [|by eexists].
  destruct (expand_ip_range_Returns ip_arg) as [out Hexp].
  unfold of_io. rewrite Hexp. cbn [fst snd].
  destruct (expanded ip_arg) as [|ip l]; eexists.
  - unfold mbind, mio_bind, say, mret, mio_ret. cbn. by rewrite app_nil_r.
  - reflexivity.
Qed.

Lemma add_arguments_targets ip_args ips :
  exists out,
    mfor_each ip_args ips add_argument
    = (Returns (ips ++ concat (map argument_targets ip_args))%list, out).
Proof.
  revert ips. induction ip_args as [|a ip_args IH]; intros ips.
  - exists []. simpl. by rewrite app_nil_r.
  - destruct (add_argument_targets ips a) as [out1 H1].
    destruct (IH (ips ++ argument_targets a)%list) as [out2 H2].
    exists (out1 ++ out2)%list. cbn [mfor_each map concat]. rewrite app_assoc.
    by apply mio_bind_Returns with (a := (ips ++ argument_targets a)%list).
Qed.

Lemma collect_targets_from ips0 out0 args w :
  targets_from_file args w = (Returns ips0, out0) ->
  exists out,
    collect_targets args w
    = (match (ips0 ++ concat (map argument_targets (arg_ip_addresses args)))%list with
       | [] => Raises (SystemExit 1)
       | ips => Returns ips
       end, out).
Proof.
  intros Hfile. unfold collect_targets.
  destruct (add_arguments_targets (arg_ip_addresses args) ips0) as [out1 H1].
  destruct (ips0 ++ concat (map argument_targets (arg_ip_addresses args)))%list
    as [|ip ips] eqn:Hips; eexists.
  - eapply mio_bind_Returns; [exact Hfile|].
    eapply mio_bind_Returns; [exact H1|]. reflexivity.
  - eapply mio_bind_Returns; [exact Hfile|].
    eapply mio_bind_Returns; [exact H1|]. reflexivity.
Qed.

(** X17.  Without [--file], the addresses [main] goes on with are, in
    the order of the command line, what each positional argument stands
    for: an argument with a slash or a dash stands for what
    [expand_ip_range] returns for it (nothing when it is malformed), any
    other argument for itself.  When that list is empty the program exits
    with status 1. *)
Theorem collect_targets_from_arguments (args : Args) (w : World) :
  arg_file args = None ->
  exists out,
    collect_targets args w
    = (match concat (map argument_targets (arg_ip_addresses args)) with
       | [] => Raises (SystemExit 1)
       | ips => Returns ips
       end, out).
Proof.
  intros Hfile.
  apply (collect_targets_from [] []). unfold targets_from_file. by rewrite Hfile.
Qed.

Lemma collect_targets_from_arguments_witness :
  arg_file (batch_args ["8.8.8.8"; "10.0.0.5-10.0.0.6"; "router"] None 10 10) = None
  /\ concat (map argument_targets ["8.8.8.8"; "10.0.0.5-10.0.0.6"; "router"])
     = ["8.8.8.8"; "10.0.0.5"; "10.0.0.6"; "router"]
  /\ exists out,
       collect_targets
         (batch_args ["8.8.8.8"; "10.0.0.5-10.0.0.6"; "router"] None 10 10)
         (dead_world (fun _ => FileNotFound) [])
       = (match concat (map argument_targets
                          (arg_ip_addresses
                             (batch_args ["8.8.8.8"; "10.0.0.5-10.0.0.6"; "router"]
                                None 10 10))) with
          | [] => Raises (SystemExit 1)
          | ips => Returns ips
          end, out).
Proof.
  split; [reflexivity|]. split; [vm_compute; reflexivity|].
  apply (collect_targets_from_arguments
           (batch_args ["8.8.8.8"; "10.0.0.5-10.0.0.6"; "router"] None 10 10)
           (dead_world (fun _ => FileNotFound) [])).
  reflexivity.
Defined.

(** X18.  With [--file], a file that cannot be read, or that stands for
    no address at all, ends the program with status 1 whatever the
    positional arguments are. *)
Theorem main_exits_on_empty_file (args : Args) (w : World) (file : string) :
  arg_file args = Some file ->
  file <> "" ->
  match file_system w file with
  | Opened lines => concat (map line_targets lines) = []
  | _ => True
  end ->
  exists out, main args w = (Raises (SystemExit 1), out).
Proof.
  intros Hfile Hne Hfs.
  assert (Hf : exists out, targets_from_file args w = (Raises (SystemExit 1), out)).
  { unfold targets_from_file. rewrite Hfile.
    destruct (String.eqb_spec file "") as [|_]; [done|].
    destruct (file_system w file) as [lines| |] eqn:Hopen.
    - destruct (read_lines_targets lines []) as [out H].
      rewrite app_nil_l, Hfs in H.
      unfold read_ips_from_file. rewrite H. by eexists.
    - by eexists.
    - by eexists. }
  destruct Hf as [out Hf]. exists out.
  unfold main, collect_targets.
  apply mio_bind_Raises. by apply mio_bind_Raises.
Qed.

Lemma main_exits_on_empty_file_witness :
  arg_file (batch_args ["8.8.8.8"] (Some "targets.txt") 10 10) = Some "targets.txt"
  /\ "targets.txt" <> ""
  /\ concat (map line_targets ["# nothing yet"; ""]) = []
  /\ exists out,
       main (batch_args ["8.8.8.8"] (Some "targets.txt") 10 10)
            (dead_world (fun _ => Opened ["# nothing yet"; ""]) [0%nat])
       = (Raises (SystemExit 1), out).
Proof.
  split; [reflexivity|]. split; [discriminate|]. split; [reflexivity|].
  apply (main_exits_on_empty_file
           (batch_args ["8.8.8.8"] (Some "targets.txt") 10 10)
           (dead_world (fun _ => Opened ["# nothing yet"; ""]) [0%nat])
           "targets.txt");
    [reflexivity|discriminate|reflexivity].
Defined.

Lemma validate_Returns args :
  1 <= arg_timeout args -> 1 <= arg_count args -> 1 <= arg_interval args ->
  validate args = (Returns tt, []).
Proof.
  intros Ht Hc Hi. unfold validate.
  destruct (Z.ltb_spec (arg_timeout args) 1); [lia|].
  destruct (Z.ltb_spec (arg_count args) 1); [lia|].
  destruct (Z.ltb_spec (arg_interval args) 1); [lia|]. reflexivity.
Qed.

Lemma validate_rejects args :
  arg_timeout args < 1 \/ arg_count args < 1 \/ arg_interval args < 1 ->
  exists msg,
    validate args = (Raises (SystemExit 1), [msg])
    /\ (msg = TimeoutTooSmall \/ msg = CountTooSmall \/ msg = IntervalTooSmall).
Proof.
  intros H. unfold validate.
  destruct (Z.ltb_spec (arg_timeout args) 1); [exists TimeoutTooSmall; auto|].
  destruct (Z.ltb_spec (arg_count args) 1); [exists CountTooSmall; auto|].
  destruct (Z.ltb_spec (arg_interval args) 1); [exists IntervalTooSmall; auto|].
  lia.
Qed.

(** X19.  Once addresses have been collected, a timeout, a count or an
    interval below 1 ends the program with status 1, in batch mode as in
    monitor mode: the one thing printed after the collection is the
    message of the first value found too small, and no address is
    probed. *)
Theorem main_rejects_small_values
    (args : Args) (w : World) (ips : list string) (out0 : list console) :
  collect_targets args w = (Returns ips, out0) ->
  arg_timeout args < 1 \/ arg_count args < 1 \/ arg_interval args < 1 ->
  exists msg,
    main args w = (Raises (SystemExit 1), (out0 ++ [msg])%list)
    /\ (msg = TimeoutTooSmall \/ msg = CountTooSmall \/ msg = IntervalTooSmall).
Proof.
  intros Hc Hbad. destruct (validate_rejects args Hbad) as (msg & Hv & Hmsg).
  exists msg. split; [|done]. unfold main.
  eapply mio_bind_Returns; [exact Hc|]. by apply mio_bind_Raises.
Qed.

Lemma main_rejects_small_values_witness :
  collect_targets (batch_args ["8.8.8.8"] None 10 0)
    (dead_world (fun _ => FileNotFound) [0%nat])
  = (Returns ["8.8.8.8"], [])
  /\ (arg_timeout (batch_args ["8.8.8.8"] None 10 0) < 1
      \/ arg_count (batch_args ["8.8.8.8"] None 10 0) < 1
      \/ arg_interval (batch_args ["8.8.8.8"] None 10 0) < 1)
  /\ exists msg,
       main (batch_args ["8.8.8.8"] None 10 0)
            (dead_world (fun _ => FileNotFound) [0%nat])
       = (Raises (SystemExit 1), ([] ++ [msg])%list)
       /\ (msg = TimeoutTooSmall \/ msg = CountTooSmall \/ msg = IntervalTooSmall).
Proof.
  assert (Hbad : arg_timeout (batch_args ["8.8.8.8"] None 10 0) < 1
                 \/ arg_count (batch_args ["8.8.8.8"] None 10 0) < 1
                 \/ arg_interval (batch_args ["8.8.8.8"] None 10 0) < 1)
    by (right; right; reflexivity).
  split; [reflexivity|]. split; [exact Hbad|].
  apply (main_rejects_small_values (batch_args ["8.8.8.8"] None 10 0)
           (dead_world (fun _ => FileNotFound) [0%nat]) ["8.8.8.8"] []);
    [reflexivity|exact Hbad].
Defined.

Lemma check_ips_parallel_Returns ips max_workers show_progress ran order :
  0 < max_workers ->
  as_completed (submit_all ips) order ->
  exists results out,
    check_ips_parallel ips max_workers show_progress ran order
    = (Returns results, out)
    /\ length results = length ips.
Proof.
  intros Hw Hord. apply as_completed_submit_all in Hord.
  assert (Hall : Forall (fun f => (f < length ips)%nat) order).
  { apply Forall_forall. intros f Hf. rewrite Hord in Hf.
    apply elem_of_seq in Hf. lia. }
  destruct (check_ips_parallel_loop ips (list_len ips) show_progress ran order
              [] 0 Hall) as (c' & out & Hloop).
  exists (map (result_of_future ran ips) order).
  unfold check_ips_parallel, ThreadPoolExecutor.
  destruct (Z.leb_spec max_workers 0); [lia|].
  destruct show_progress; eexists; (split;
    [cbn [lift when print io_ret io_bind]; rewrite Hloop;
     cbn [io_bind io_ret fst snd app]; reflexivity
    |rewrite length_map, Hord; apply length_seq]).
Qed.

Lemma check_ips_parallel_without_workers ips max_workers show_progress ran order :
  max_workers <= 0 ->
  check_ips_parallel ips max_workers show_progress ran order
  = (Raises ValueError, []).
Proof.
  intros Hw. unfold check_ips_parallel, ThreadPoolExecutor.
  by destruct (Z.leb_spec max_workers 0); [|lia].
Qed.

Lemma one_time_check_prelude (ips : list string) (args : Args) :
  exists out,
    (if negb (arg_show_progress args) then
       say (CheckingAddresses (list_len ips));;
       if 1 <? list_len ips
       then say (UsingConnections (Z.min (arg_workers args) (list_len ips)))
       else mret tt
     else mret tt)
    = ((Returns tt, out) : mio unit).
Proof.
  destruct (arg_show_progress args); simpl; [by eexists|].
  destruct (1 <? list_len ips); by eexists.
Qed.

(** X20.  In batch mode, when addresses have been collected, the timeout,
    the count and the interval are at least 1 and the pool has at least one
    worker, [main] runs to its end and returns (exit status 0), whatever the
    pings find: dead hosts are a result, not a failure.  Its last line is
    the elapsed time. *)
Theorem main_batch_returns
    (args : Args) (w : World) (ips : list string) (out0 : list console) :
  collect_targets args w = (Returns ips, out0) ->
  1 <= arg_timeout args -> 1 <= arg_count args -> 1 <= arg_interval args ->
  arg_round_robin args = false ->
  0 < arg_workers args ->
  as_completed (submit_all ips) (scan_order w) ->
  exists out,
    main args w = (Returns tt, (out0 ++ out ++ [CompletedIn (elapsed w)])%list).
Proof.
  intros Hc Ht Hn Hi Hrr Hw Hord.
  destruct (one_time_check_prelude ips args) as [out1 H1].
  destruct (check_ips_parallel_Returns ips (arg_workers args)
              (arg_show_progress args) (scan_ran w) (scan_order w) Hw Hord)
    as (results & out2 & H2 & _).
  assert (H3 : exists out3,
    (if negb (arg_quiet args) then
       of_io (print_results results (negb (arg_no_summary args)) false "").2
     else
       let alive_count := list_len (List.filter is_alive_of results) in
       let total_count := list_len results in
       say (QuietResults alive_count total_count))
    = ((Returns tt, out3) : mio unit)).
  { destruct (arg_quiet args); simpl; [by eexists|].
    destruct (print_results_quiet results (negb (arg_no_summary args)) false "")
      as (out & -> & _). by eexists. }
  destruct H3 as [out3 H3].
  exists (out1 ++ map Core out2 ++ out3)%list.
  unfold main. rewrite Hrr.
  erewrite mio_bind_Returns; [|exact Hc|].
  2:{ erewrite mio_bind_Returns; [|by apply validate_Returns|].
      2:{ unfold one_time_check.
          erewrite mio_bind_Returns; [|exact H1|].
          2:{ erewrite mio_bind_Returns; [|unfold of_io; rewrite H2; reflexivity|].
              2:{ erewrite mio_bind_Returns; [|exact H3|reflexivity]. reflexivity. }
              reflexivity. }
          reflexivity. }
      reflexivity. }
  by rewrite app_nil_l, <- !app_assoc.
Qed.

Lemma main_batch_returns_witness :
  collect_targets (batch_args ["10.0.0.1"; "10.0.0.2"] None 10 10)
    (dead_world (fun _ => FileNotFound) [1%nat; 0%nat])
  = (Returns ["10.0.0.1"; "10.0.0.2"], [])
  /\ as_completed (submit_all ["10.0.0.1"; "10.0.0.2"]) [1%nat; 0%nat]
  /\ exists out,
       main (batch_args ["10.0.0.1"; "10.0.0.2"] None 10 10)
            (dead_world (fun _ => FileNotFound) [1%nat; 0%nat])
       = (Returns tt,
          ([] ++ out
           ++ [CompletedIn
                 (elapsed (dead_world (fun _ => FileNotFound) [1%nat; 0%nat]))])%list).
Proof.
  assert (Hord : as_completed (submit_all ["10.0.0.1"; "10.0.0.2"]) [1%nat; 0%nat]).
  { apply as_completed_submit_all. apply (Permutation_app_comm [1%nat] [0%nat]). }
  split; [reflexivity|]. split; [exact Hord|].
  apply (main_batch_returns (batch_args ["10.0.0.1"; "10.0.0.2"] None 10 10)
           (dead_world (fun _ => FileNotFound) [1%nat; 0%nat])
           ["10.0.0.1"; "10.0.0.2"] []);
    [reflexivity|simpl; lia|simpl; lia|simpl; lia|reflexivity|simpl; lia|exact Hord].
Defined.

(** X21.  The number of workers is not checked by [main]: in batch mode,
    with addresses collected and the other values valid, a number of
    workers below 1 makes the pool constructor raise [ValueError], which
    nothing catches, before any address is probed. *)
Theorem main_does_not_check_workers
    (args : Args) (w : World) (ips : list string) (out0 : list console) :
  collect_targets args w = (Returns ips, out0) ->
  1 <= arg_timeout args -> 1 <= arg_count args -> 1 <= arg_interval args ->
  arg_round_robin args = false ->
  arg_workers args <= 0 ->
  exists out,
    main args w = (Raises ValueError, (out0 ++ out)%list)
    /\ Forall (fun l => match l with Core _ => False | _ => True end) out.
Proof.
  intros Hc Ht Hn Hi Hrr Hw.
  destruct (one_time_check_prelude ips args) as [out1 H1].
  assert (Hq1 : Forall (fun l => match l with Core _ => False | _ => True end) out1).
  { destruct (arg_show_progress args); simpl in H1.
    - injection H1 as <-. constructor.
    - destruct (1 <? list_len ips); injection H1 as <-; by repeat constructor. }
  exists out1. split; [|done]. unfold main. rewrite Hrr.
  erewrite mio_bind_Returns; [|exact Hc|].
  2:{ erewrite mio_bind_Returns; [|by apply validate_Returns|].
      2:{ unfold one_time_check.
          erewrite mio_bind_Returns; [|exact H1|].
          2:{ apply mio_bind_Raises. unfold of_io.
              rewrite check_ips_parallel_without_workers by done. reflexivity. }
          reflexivity. }
      reflexivity. }
  by rewrite app_nil_l, app_nil_r.
Qed.

Lemma main_does_not_check_workers_witness :
  collect_targets (batch_args ["10.0.0.1"] None 0 10)
    (dead_world (fun _ => FileNotFound) [0%nat])
  = (Returns ["10.0.0.1"], [])
  /\ arg_workers (batch_args ["10.0.0.1"] None 0 10) <= 0
  /\ exists out,
       main (batch_args ["10.0.0.1"] None 0 10)
            (dead_world (fun _ => FileNotFound) [0%nat])
       = (Raises ValueError, ([] ++ out)%list)
       /\ Forall (fun l => match l with Core _ => False | _ => True end) out.
Proof.
  split; [reflexivity|]. split; [simpl; lia|].
  apply (main_does_not_check_workers (batch_args ["10.0.0.1"] None 0 10)
           (dead_world (fun _ => FileNotFound) [0%nat]) ["10.0.0.1"] []);
    [reflexivity|simpl; lia|simpl; lia|simpl; lia|reflexivity|simpl; lia].
Defined.


(** ** [check_ips_parallel] *)

Lemma ping_result_address ran ip : address_of (ping_result ran ip) = ip.
Proof. destruct ran as [rc| |cause]; simpl; [by destruct (rc =? 0)|done|done]. Qed.

Lemma check_ips_parallel_loop_output ips show_progress ran order rs c :
  Forall (fun f => (f < length ips)%nat) order ->
  for_each order (rs, c)
    (collect_result (submit_all ips) (list_len ips) show_progress ran)
  = (Returns ((rs ++ map (result_of_future ran ips) order)%list,
              c + list_len order),
     if show_progress then imap (progress_line ran ips c) order else []).
Proof.
  intros Hall. revert rs c.
  induction Hall as [|f order Hf _ IH]; intros rs c.
  - cbn [for_each map imap]. unfold io_ret, list_len. cbn [length].
    rewrite app_nil_r, Z.add_0_r. by destruct show_progress.
  - apply lookup_lt_is_Some_2 in Hf as [ip Hip].
    cbn [for_each map]. unfold collect_result at 1. unfold submit_all at 1.
    rewrite lookup_map_seq_0, Hip.
    assert (Hres : result_of_future ran ips f = ping_result (ran f) ip).
    { unfold result_of_future. by rewrite Hip. }
    assert (Hnext : forall k g,
               progress_line ran ips (c + 1) k g = progress_line ran ips c (S k) g).
    { intros k g. unfold progress_line. f_equal. lia. }
    destruct show_progress;
      cbn [ping_ip when lift print io_bind io_ret fst snd app];
      rewrite IH; cbn [app]; rewrite <- app_assoc; unfold list_len;
      cbn [length app imap]; rewrite Hres.
    + unfold progress_line at 2. rewrite Hres, ping_result_address.
      f_equal; [do 2 f_equal; lia|]. f_equal; [f_equal; lia|].
      apply imap_ext. intros k g _. apply Hnext.
    + f_equal. do 2 f_equal. lia.
Qed.

Lemma check_ips_parallel_run ips max_workers show_progress ran order :
  0 < max_workers ->
  Forall (fun f => (f < length ips)%nat) order ->
  check_ips_parallel ips max_workers show_progress ran order
  = (Returns (map (result_of_future ran ips) order),
     scan_output ran ips max_workers show_progress order).
Proof.
  intros Hw Hall.
  unfold check_ips_parallel, ThreadPoolExecutor, scan_output.
  destruct (Z.leb_spec max_workers 0); [lia|].
  cbn [lift io_bind]. cbv zeta.
  rewrite (check_ips_parallel_loop_output _ _ _ _ [] 0 Hall).
  destruct show_progress; cbn [when print io_bind io_ret fst snd app];
    by rewrite ?app_nil_r.
Qed.

(** X22.  With a pool of at least one worker, the scan returns the results
    in the order in which the probes complete, not in the order of the
    address list: the [k]-th result is the result of the [k]-th future to
    complete, for the address that was submitted with it. *)
Theorem check_ips_parallel_in_completion_order
    (ip_addresses : list string) (max_workers : Z) (show_progress : bool)
    (ran : Future -> run_result) (completion_order : list Future) :
  0 < max_workers ->
  as_completed (submit_all ip_addresses) completion_order ->
  exists results out,
    check_ips_parallel ip_addresses max_workers show_progress ran completion_order
    = (Returns results, out)
    /\ forall (k : nat) (f : Future),
         completion_order !! k = Some f ->
         exists ip,
           ip_addresses !! f = Some ip
           /\ results !! k = Some (ping_result (ran f) ip).
Proof.
  intros Hw Hord. apply as_completed_submit_all in Hord.
  assert (Hall : Forall (fun f => (f < length ip_addresses)%nat) completion_order).
  { apply Forall_forall. intros f Hf. rewrite Hord in Hf.
    apply elem_of_seq in Hf. lia. }
  exists (map (result_of_future ran ip_addresses) completion_order).
  eexists. split; [by apply check_ips_parallel_run|].
  intros k f Hk.
  assert (Hf : (f < length ip_addresses)%nat).
  { eapply Forall_forall in Hall; [exact Hall|]. by eapply list_elem_of_lookup_2. }
  apply lookup_lt_is_Some_2 in Hf as [ip Hip].
  exists ip. split; [done|].
  rewrite list_lookup_fmap, Hk. simpl. unfold result_of_future. by rewrite Hip.
Qed.

Lemma check_ips_parallel_in_completion_order_witness :
  as_completed (submit_all ["10.0.0.1"; "10.0.0.2"]) [1%nat; 0%nat]
  /\ exists results out,
       check_ips_parallel ["10.0.0.1"; "10.0.0.2"] 10 false
         (fun f => Completed (Z.of_nat f)) [1%nat; 0%nat]
       = (Returns results, out)
       /\ forall (k : nat) (f : Future),
            [1%nat; 0%nat] !! k = Some f ->
            exists ip,
              ["10.0.0.1"; "10.0.0.2"] !! f = Some ip
              /\ results !! k = Some (ping_result (Completed (Z.of_nat f)) ip).
Proof.
  assert (Hord : as_completed (submit_all ["10.0.0.1"; "10.0.0.2"]) [1%nat; 0%nat]).
  { apply as_completed_submit_all. apply (Permutation_app_comm [1%nat] [0%nat]). }
  split; [exact Hord|].
  apply (check_ips_parallel_in_completion_order ["10.0.0.1"; "10.0.0.2"] 10 false
           (fun f => Completed (Z.of_nat f)) [1%nat; 0%nat]); [lia|exact Hord].
Defined.

(** X23.  With a pool of at least one worker, a scan without progress
    display prints nothing; with it, it prints the banner and then one line
    per completed probe, numbered 1, 2, ... in completion order and carrying
    that probe's address and verdict, so the last number is the length of
    the address list. *)
Theorem check_ips_parallel_progress_lines
    (ip_addresses : list string) (max_workers : Z) (show_progress : bool)
    (ran : Future -> run_result) (completion_order : list Future) :
  0 < max_workers ->
  as_completed (submit_all ip_addresses) completion_order ->
  (check_ips_parallel ip_addresses max_workers show_progress ran
     completion_order).2
  = scan_output ran ip_addresses max_workers show_progress completion_order
  /\ length completion_order = length ip_addresses.
Proof.
  intros Hw Hord. apply as_completed_submit_all in Hord.
  assert (Hall : Forall (fun f => (f < length ip_addresses)%nat) completion_order).
  { apply Forall_forall. intros f Hf. rewrite Hord in Hf.
    apply elem_of_seq in Hf. lia. }
  split; [|rewrite Hord; apply length_seq].
  by rewrite check_ips_parallel_run.
Qed.

Lemma check_ips_parallel_progress_lines_witness :
  as_completed (submit_all ["10.0.0.1"; "10.0.0.2"]) [1%nat; 0%nat]
  /\ (check_ips_parallel ["10.0.0.1"; "10.0.0.2"] 10 true
        (fun f => Completed (Z.of_nat f)) [1%nat; 0%nat]).2
     = scan_output (fun f => Completed (Z.of_nat f)) ["10.0.0.1"; "10.0.0.2"] 10 true
         [1%nat; 0%nat]
  /\ length [1%nat; 0%nat] = length ["10.0.0.1"; "10.0.0.2"].
Proof.
  assert (Hord : as_completed (submit_all ["10.0.0.1"; "10.0.0.2"]) [1%nat; 0%nat]).
  { apply as_completed_submit_all. apply (Permutation_app_comm [1%nat] [0%nat]). }
  split; [exact Hord|].
  apply (check_ips_parallel_progress_lines ["10.0.0.1"; "10.0.0.2"] 10 true
           (fun f => Completed (Z.of_nat f)) [1%nat; 0%nat]); [lia|exact Hord].
Defined.
